(** * serverless-kubeless: the [deploy:deploy] hook of [KubelessDeploy]

    A shallow embedding of [src/deploy/kubelessDeploy.js] and the properties
    of its function population pipeline.

    - [JS]: the JavaScript values the plugin manipulates (declarations,
      events, options) and property access with its [TypeError]s.
    - [Lodash]: [_.keys], [_.assign], [_.map] as the plugin uses them.
    - [KubelessDeploy]: the class; methods are computations in a state and
      exception monad, promises are tasks run by an arbitrary scheduler. *)

From Stdlib Require Import String Ascii List NArith ZArith Lia Bool DecimalString.
From Stdlib Require Import Permutation.
From Stdlib Require DecimalFacts DecimalPos DecimalN.
Import ListNotations.
Open Scope string_scope.

(** ** JavaScript values *)

Module JS.

(** Object properties are kept in enumeration order (the order [for..in] and
    [Object.keys] visit them), which for the string keys of a YAML mapping is
    insertion order. *)
#[warnings="-register-all"]
Inductive value : Type :=
| VUndef
| VNull
| VBool (b : bool)
| VNum (n : Z)
| VStr (s : string)
| VObj (props : list (string * value))
| VArr (elems : list value).

Definition props := list (string * value).

(** What a [throw] or a rejected promise carries. *)
Inductive error : Type :=
| Error (message : string)          (* new Error(message) *)
| TypeError (message : string)      (* property of null/undefined, bad path *)
| ENOENT (path : string)            (* fs: no such file or directory *)
| EISDIR (path : string)            (* fs: read of a directory *)
| ZipError                          (* JSZip: not a zip archive *)
| Rejection (reason : value).       (* a collaborator's promise rejected *)

Inductive res (A : Type) : Type :=
| Ok (a : A)
| Throw (e : error).
Arguments Ok {A} a.
Arguments Throw {A} e.

Definition rbind {A B} (r : res A) (k : A -> res B) : res B :=
  match r with
  | Ok a => k a
  | Throw e => Throw e
  end.

(** ToBoolean. *)
Definition truthy (v : value) : bool :=
  match v with
  | VUndef | VNull => false
  | VBool b => b
  | VNum n => negb (Z.eqb n 0)
  | VStr s => negb (String.eqb s "")
  | VObj _ | VArr _ => true
  end.

Fixpoint assoc (k : string) (ps : props) : option value :=
  match ps with
  | [] => None
  | (k', v) :: ps' => if String.eqb k k' then Some v else assoc k ps'
  end.

(** [object[k] = v]: an existing property keeps its place. *)
Fixpoint set_prop (k : string) (v : value) (ps : props) : props :=
  match ps with
  | [] => [(k, v)]
  | (k', v') :: ps' =>
      if String.eqb k k' then (k', v) :: ps' else (k', v') :: set_prop k v ps'
  end.

Definition index_key (i : nat) : string :=
  NilZero.string_of_uint (Nat.to_uint i).

Fixpoint indexed (i : nat) (vs : list value) : props :=
  match vs with
  | [] => []
  | v :: vs' => (index_key i, v) :: indexed (S i) vs'
  end.

Definition chars (s : string) : list value :=
  List.map (fun c => VStr (String c EmptyString)) (list_ascii_of_string s).

(** Own enumerable string-keyed properties: those of an object, the indices
    of an array or of a string, none for the other primitives. *)
Definition own_props (v : value) : props :=
  match v with
  | VObj ps => ps
  | VArr vs => indexed 0 vs
  | VStr s => indexed 0 (chars s)
  | _ => []
  end.

(** [v[k]] and [v.k]; reading a property of [null] or [undefined] throws. *)
Definition prop (k : string) (v : value) : res value :=
  match v with
  | VUndef => Throw (TypeError ("Cannot read property '" ++ k ++ "' of undefined"))
  | VNull => Throw (TypeError ("Cannot read property '" ++ k ++ "' of null"))
  | _ => Ok (match assoc k (own_props v) with Some x => x | None => VUndef end)
  end.

(** [a || b], with [b] evaluated only when [a] is falsy. *)
Definition or_else (a : value) (b : res value) : res value :=
  if truthy a then Ok a else b.

End JS.
Export JS.

Notation "x <~ r ;; k" := (rbind r (fun x => k))
  (at level 61, r at next level, right associativity).

(** ** The lodash functions the plugin calls *)

Module Lodash.

(** [_.keys(v)]. *)
Definition keys (v : value) : list string := List.map fst (own_props v).

(** [_.assign(target, ...sources)]: later sources win. *)
Definition assign1 (target : props) (source : value) : props :=
  fold_left (fun acc kv => set_prop (fst kv) (snd kv) acc) (own_props source) target.

Definition assign (target : props) (sources : list value) : props :=
  fold_left assign1 sources target.

(** [_.map(collection, iteratee)] for an iteratee that may throw: the
    elements are visited in order and the first throw ends the call. *)
Fixpoint map_list (f : value -> res value) (vs : list value) : res (list value) :=
  match vs with
  | [] => Ok []
  | v :: vs' => r <~ f v ;; rs <~ map_list f vs' ;; Ok (r :: rs)
  end.

Definition map (collection : value) (f : value -> res value) : res value :=
  rs <~ map_list f (List.map snd (own_props collection)) ;; Ok (VArr rs).

End Lodash.

(** ** Event normalization (the [events:] iteratee, lines 131-139) *)

(** [_.keys(event)[0]] as a JavaScript value and as the property name it
    denotes in [event[type]]. *)
Definition first_key (event : value) : value :=
  match Lodash.keys event with
  | k :: _ => VStr k
  | [] => VUndef
  end.

Definition key_name (type : value) : string :=
  match type with
  | VStr k => k
  | _ => "undefined"
  end.

Definition is_type (type : value) (k : string) : bool :=
  match type with
  | VStr s => String.eqb s k
  | _ => false
  end.

Definition normalizeEvent (event : value) : res value :=
  let type := first_key event in
  if is_type type "trigger" then
    payload <~ prop (key_name type) event ;;
    Ok (VObj (Lodash.assign [("type", type)] [VObj [("trigger", payload)]]))
  else if is_type type "schedule" then
    payload <~ prop (key_name type) event ;;
    Ok (VObj (Lodash.assign [("type", type)] [VObj [("schedule", payload)]]))
  else
    payload <~ prop (key_name type) event ;;
    Ok (VObj (Lodash.assign [("type", type)] [payload])).

Definition normalizeEvents (events : value) : res value :=
  Lodash.map events normalizeEvent.

(** ** The world around the plugin *)

(** The text entries of a zip archive, by relative path. *)
Definition archive := list (string * string).

(** A path on disk: a directory, or a regular file with what
    [JSZip.loadAsync] makes of its bytes ([None]: not a zip archive).
    Sizes are the [size] of [fs.Stats], an exact integer. *)
Inductive node : Type :=
| Directory (size : N)
| RegularFile (size : N) (zip : option archive).

Definition node_size (n : node) : N :=
  match n with
  | Directory sz => sz
  | RegularFile sz _ => sz
  end.

Definition isDirectory (n : node) : bool :=
  match n with
  | Directory _ => true
  | RegularFile _ _ => false
  end.

(** The collaborators required from [../lib] and the disk. Their code is not
    part of this file; each is a parameter of the model.
    - [strategy_deploy name description pkg]: how the promise returned by
      [Strategy.factory().deploy(description, pkg)] settles for the call made
      on behalf of function [name];
    - [getRuntimeDepfile]: [helpers.getRuntimeDepfile(runtime, kubelessConfig)];
    - [config_init]: how [kubelessConfig.init()] settles. *)
Record world : Type := {
  files : string -> option node;
  strategy_deploy : string -> value -> value -> res value;
  getRuntimeDepfile : value -> string;
  config_init : res unit
}.

(** [this.serverless] and [this.options] ([options || {}], an object). *)
Record plugin : Type := {
  service_functions : list (string * value);
  service_provider : props;
  service_package : props;
  service_service : value;
  config_artifact : value;      (* serverless.config.serverless.service.artifact *)
  options : props
}.

Definition field (k : string) (ps : props) : value :=
  match assoc k ps with
  | Some v => v
  | None => VUndef
  end.

(** ** State of one [KubelessDeploy] instance during [deploy:deploy] *)

Inductive promise : Type :=
| Pending
| Fulfilled
| Rejected (e : error).

(** A [Buffer] is an object: two reads of one file give two buffers. *)
Record buffer : Type := {
  buffer_id : nat;
  buffer_zip : option archive
}.

(** Invocations, in order, as a spy on each collaborator would record them. *)
Inductive call : Type :=
| GetPkg (funcName : string)
| CheckSize (pkg : value)
| StrategyDeploy (name : string) (pkg : value)
| GetFileContent (zipFile : value) (relativePath : string)
| ReadFileSync (path : value)
| LoadAsync (b : nat).

(** Callbacks waiting for a promise to settle. *)
Inductive task : Type :=
| StrategySettled (name : string) (description pkg : value) (depFile : string)
| DeployOptionsThen (name : string) (description pkg : value) (depFile : string)
    (deployOptions : value)
| RequirementsThen (name : string) (description deployOptions requirementsContent : value)
| SubmitThen.

Record state : Type := {
  populatedFunctions : list value;
  outer : promise;                  (* new BbPromise((resolve, reject) => ...) *)
  tasks : list task;
  submitted : list (list value);    (* first argument of each deploy(...) call *)
  log : list string;                (* serverless.cli.log *)
  calls : list call;
  next_buffer : nat;
  zip_cache : list (nat * res archive);   (* cache of _.memoize(JSZip.loadAsync) *)
  unhandled : list error            (* rejections no handler is attached to *)
}.

Definition initial : state :=
  {| populatedFunctions := []; outer := Pending; tasks := []; submitted := [];
     log := []; calls := []; next_buffer := 0; zip_cache := []; unhandled := [] |}.

Definition set_populatedFunctions (x : list value) (s : state) : state :=
  {| populatedFunctions := x; outer := outer s; tasks := tasks s;
     submitted := submitted s; log := log s; calls := calls s;
     next_buffer := next_buffer s; zip_cache := zip_cache s; unhandled := unhandled s |}.

Definition set_outer (x : promise) (s : state) : state :=
  {| populatedFunctions := populatedFunctions s; outer := x; tasks := tasks s;
     submitted := submitted s; log := log s; calls := calls s;
     next_buffer := next_buffer s; zip_cache := zip_cache s; unhandled := unhandled s |}.

Definition set_tasks (x : list task) (s : state) : state :=
  {| populatedFunctions := populatedFunctions s; outer := outer s; tasks := x;
     submitted := submitted s; log := log s; calls := calls s;
     next_buffer := next_buffer s; zip_cache := zip_cache s; unhandled := unhandled s |}.

Definition set_submitted (x : list (list value)) (s : state) : state :=
  {| populatedFunctions := populatedFunctions s; outer := outer s; tasks := tasks s;
     submitted := x; log := log s; calls := calls s;
     next_buffer := next_buffer s; zip_cache := zip_cache s; unhandled := unhandled s |}.

Definition set_log (x : list string) (s : state) : state :=
  {| populatedFunctions := populatedFunctions s; outer := outer s; tasks := tasks s;
     submitted := submitted s; log := x; calls := calls s;
     next_buffer := next_buffer s; zip_cache := zip_cache s; unhandled := unhandled s |}.

Definition set_calls (x : list call) (s : state) : state :=
  {| populatedFunctions := populatedFunctions s; outer := outer s; tasks := tasks s;
     submitted := submitted s; log := log s; calls := x;
     next_buffer := next_buffer s; zip_cache := zip_cache s; unhandled := unhandled s |}.

Definition set_buffers (n : nat) (c : list (nat * res archive)) (s : state) : state :=
  {| populatedFunctions := populatedFunctions s; outer := outer s; tasks := tasks s;
     submitted := submitted s; log := log s; calls := calls s;
     next_buffer := n; zip_cache := c; unhandled := unhandled s |}.

Definition set_unhandled (x : list error) (s : state) : state :=
  {| populatedFunctions := populatedFunctions s; outer := outer s; tasks := tasks s;
     submitted := submitted s; log := log s; calls := calls s;
     next_buffer := next_buffer s; zip_cache := zip_cache s; unhandled := x |}.

(** Computations that read and write the state and may throw; what was
    written before a [throw] stays written. *)
Definition M (A : Type) : Type := state -> res A * state.

Definition ret {A} (a : A) : M A := fun s => (Ok a, s).

Definition throw {A} (e : error) : M A := fun s => (Throw e, s).

Definition bind {A B} (m : M A) (k : A -> M B) : M B :=
  fun s =>
    match m s with
    | (Ok a, s') => k a s'
    | (Throw e, s') => (Throw e, s')
    end.

Definition lift {A} (r : res A) : M A := fun s => (r, s).

Notation "x <- m ;; k" := (bind m (fun x => k))
  (at level 61, m at next level, right associativity).
Notation "m ;;; k" := (bind m (fun _ => k))
  (at level 61, right associativity).

Definition spy (c : call) : M unit :=
  fun s => (Ok tt, set_calls (calls s ++ [c]) s).

Definition cli_log (msg : string) : M unit :=
  fun s => (Ok tt, set_log (log s ++ [msg]) s).

Definition spawn (t : task) : M unit :=
  fun s => (Ok tt, set_tasks (tasks s ++ [t]) s).

Definition push (f : value) : M unit :=
  fun s => (Ok tt, set_populatedFunctions (populatedFunctions s ++ [f]) s).

(** [resolve()] and [reject(e)] of the outer promise: only the first call
    settles it; fulfilment queues the callback of [.then(() => deploy(...))],
    a rejection passes through that [.then] to the caller. *)
Definition resolve : M unit :=
  fun s =>
    match outer s with
    | Pending => (Ok tt, set_tasks (tasks s ++ [SubmitThen]) (set_outer Fulfilled s))
    | _ => (Ok tt, s)
    end.

Definition reject (e : error) : M unit :=
  fun s =>
    match outer s with
    | Pending => (Ok tt, set_outer (Rejected e) s)
    | _ => (Ok tt, s)
    end.

(** ** The methods of [KubelessDeploy] *)

Section KubelessDeploy.

Variable W : world.
Variable T : plugin.

(** [fs] calls take a path; anything else than a string is refused. *)
Definition path_of (v : value) : res string :=
  match v with
  | VStr p => Ok p
  | _ => Throw (TypeError "path must be a string or Buffer")
  end.

(** [fs.statSync(path)] and [fs.lstatSync(path)] (the disk has no links). *)
Definition statSync (path : value) : res node :=
  p <~ path_of path ;;
  match files W p with
  | Some n => Ok n
  | None => Throw (ENOENT p)
  end.

(** [fs.readFileSync(path)]: a new buffer at every call. *)
Definition readFileSync (path : value) : M buffer :=
  spy (ReadFileSync path) ;;;
  p <- lift (path_of path) ;;
  match files W p with
  | None => throw (ENOENT p)
  | Some (Directory _) => throw (EISDIR p)
  | Some (RegularFile _ z) =>
      fun s =>
        (Ok {| buffer_id := next_buffer s; buffer_zip := z |},
         set_buffers (S (next_buffer s)) (zip_cache s) s)
  end.

(** [JSZip.loadAsync(data)]: the settlement of the promise it returns. *)
Definition JSZip_loadAsync (data : buffer) : M (res archive) :=
  spy (LoadAsync (buffer_id data)) ;;;
  ret (match buffer_zip data with
       | Some z => Ok z
       | None => Throw ZipError
       end).

(** [_.memoize(func)] without a resolver keys its cache by the first
    argument; the cache is a [Map], so an object key is found again only
    when it is the same object. *)
Fixpoint cache_get (id : nat) (c : list (nat * res archive)) : option (res archive) :=
  match c with
  | [] => None
  | (id', p) :: c' => if Nat.eqb id id' then Some p else cache_get id c'
  end.

(** [this.loadZip = _.memoize(JSZip.loadAsync)] (line 42). *)
Definition loadZip (data : buffer) : M (res archive) :=
  fun s =>
    match cache_get (buffer_id data) (zip_cache s) with
    | Some p => (Ok p, s)
    | None =>
        match JSZip_loadAsync data s with
        | (Ok p, s') =>
            (Ok p, set_buffers (next_buffer s') ((buffer_id data, p) :: zip_cache s') s')
        | (Throw e, s') => (Throw e, s')
        end
    end.

(** [zip.file(relativePath).async('string')]: [zip.file] is [null] for a
    path the archive does not have, and [null.async] throws. *)
Definition file_async_string (zip : archive) (relativePath : string) : res string :=
  match find (fun e => String.eqb relativePath (fst e)) zip with
  | Some e => Ok (snd e)
  | None => Throw (TypeError "Cannot read property 'async' of null")
  end.

(** [getFileContent(zipFile, relativePath)] (lines 61-65): the settlement of
    the promise it returns; [readFileSync] throws before any promise exists. *)
Definition getFileContent (zipFile : value) (relativePath : string) : M (res string) :=
  spy (GetFileContent zipFile relativePath) ;;;
  data <- readFileSync zipFile ;;
  loaded <- loadZip data ;;
  ret (zip <~ loaded ;; file_async_string zip relativePath).

(** [checkSize(pkg)] (lines 67-79). *)
Definition oneMB : N := 1024 * 1024.

(** [Math.round(a / b)] on non-negative integers: halves round up. *)
Definition round_div (a b : N) : N := (2 * a + b) / (2 * b).

Definition decimal (n : N) : string := NilZero.string_of_uint (N.to_uint n).

Definition size_warning (size : N) : string :=
  "WARNING! Function zip file is " ++ decimal (round_div size oneMB) ++ "MB. " ++
  "The maximum size allowed is 1MB: please use package.exclude directives to include " ++
  "only the required files".

Definition checkSize (pkg : value) : M unit :=
  spy (CheckSize pkg) ;;;
  stat <- lift (statSync pkg) ;;
  if (oneMB <? node_size stat)%N
  then cli_log (size_warning (node_size stat))
  else ret tt.

(** [getPkg(description, funcName)] (lines 81-101). *)
Definition errMsg : string :=
  "Expecting the Paramater to be a directory " ++
  "for individualy packaged functions".

Definition getPkg (description : value) (funcName : string) : M value :=
  spy (GetPkg funcName) ;;;
  pkg <- lift
    (or_else (field "package" (options T))
    (or_else (field "path" (service_package T))
    (or_else (field "artifact" (service_package T))
    (p <~ prop "package" description ;;
     a <~ prop "artifact" p ;;
     or_else a (Ok (config_artifact T)))))) ;;
  if truthy (field "package" (options T)) &&
     truthy (field "individually" (service_package T))
  then
    p <- lift (path_of pkg) ;;
    stat <- lift (statSync pkg) ;;
    if isDirectory stat
    then ret (VStr (p ++ funcName ++ ".zip"))
    else cli_log errMsg ;;; throw (Error errMsg)
  else ret pkg.

(** [deployFunction()] (lines 104-177). *)

Definition total : nat := List.length (service_functions T).

(** [if (populatedFunctions.length === _.keys(functions).length) resolve()]. *)
Definition barrier : M unit :=
  fun s =>
    if Nat.eqb (List.length (populatedFunctions s)) total
    then resolve s
    else (Ok tt, s).

(** The iteratee of [_.each(this.serverless.service.functions, ...)]
    (lines 110-153). *)
Definition each_function (description : value) (name : string) : M unit :=
  pkg <- getPkg description name ;;
  checkSize pkg ;;;
  handler <- lift (prop "handler" description) ;;
  if truthy handler then
    rt <- lift (r <~ prop "runtime" description ;;
                or_else r (Ok (field "runtime" (service_provider T)))) ;;
    let depFile := getRuntimeDepfile W rt in
    spy (StrategyDeploy name pkg) ;;;
    spawn (StrategySettled name description pkg depFile)
  else
    push (VObj (Lodash.assign [] [description; VObj [("id", VStr name)]])) ;;;
    barrier.

(** [_.each]: in key order, left by the first throw. *)
Fixpoint each (fs : list (string * value)) : M unit :=
  match fs with
  | [] => ret tt
  | (name, description) :: fs' => each_function description name ;;; each fs'
  end.

(** The record pushed for a function with a handler (lines 127-140). *)
Definition populate (name : string) (description deployOptions requirementsContent : value)
  : res value :=
  image <~ (i <~ prop "image" description ;;
            or_else i (Ok (field "image" (service_provider T)))) ;;
  events <~ (evs <~ prop "events" description ;; normalizeEvents evs) ;;
  Ok (VObj (Lodash.assign []
        [description; deployOptions;
         VObj [("id", VStr name); ("deps", requirementsContent);
               ("image", image); ("events", events)]])).

(** [.catch(() => {})]: whatever the rejection, the value is [undefined]. *)
Definition catch_ignore (settled : res string) : value :=
  match settled with
  | Ok text => VStr text
  | Throw _ => VUndef
  end.

(** The callbacks of the promise chains. *)
Definition callback (t : task) : M unit :=
  match t with
  | StrategySettled name description pkg depFile =>
      (* .catch(reject) : the handler returns undefined *)
      deployOptions <-
        match strategy_deploy W name description pkg with
        | Ok v => ret v
        | Throw e => reject e ;;; ret VUndef
        end ;;
      spawn (DeployOptionsThen name description pkg depFile deployOptions)
  | DeployOptionsThen name description pkg depFile deployOptions =>
      (* .then(deployOptions => { this.getFileContent(pkg, depFile)... *)
      settled <- getFileContent pkg depFile ;;
      spawn (RequirementsThen name description deployOptions (catch_ignore settled))
  | RequirementsThen name description deployOptions requirementsContent =>
      (* .then((requirementsContent) => { ... }) *)
      f <- lift (populate name description deployOptions requirementsContent) ;;
      push f ;;;
      barrier
  | SubmitThen =>
      (* .then(() => deploy(populatedFunctions, ...)) *)
      fun s => (Ok tt, set_submitted (submitted s ++ [populatedFunctions s]) s)
  end.

(** A throw inside a callback rejects the promise that [.then] returned;
    nothing in the plugin listens to those promises. *)
Definition settle (r : res unit * state) : state :=
  match r with
  | (Ok _, s) => s
  | (Throw e, s) => set_unhandled (unhandled s ++ [e]) s
  end.

(** [deployFunction()] up to the end of the callback of
    [kubelessConfig.init().then(...)]. *)
Definition deployFunction (s : state) : state :=
  match config_init W with
  | Ok _ => settle (each (service_functions T) s)
  | Throw e => set_unhandled (unhandled s ++ [e]) s
  end.

(** ** The event loop: pending callbacks run one at a time, in any order *)

Fixpoint remove_nth {A} (i : nat) (l : list A) : list A :=
  match i, l with
  | _, [] => []
  | O, _ :: l' => l'
  | S i', x :: l' => x :: remove_nth i' l'
  end.

Definition step (i : nat) (s : state) : state :=
  match nth_error (tasks s) i with
  | Some t => settle (callback t (set_tasks (remove_nth i (tasks s)) s))
  | None => s
  end.

Definition run (schedule : list nat) (s : state) : state :=
  fold_left (fun s i => step i s) schedule s.

Definition deployment (schedule : list nat) : state :=
  run schedule (deployFunction initial).

End KubelessDeploy.

(** ** What the proofs speak about *)

(** The fields the barrier depends on; the other fields are the log, the
    spy's record and the buffers. *)
Definition same_core (s s' : state) : Prop :=
  populatedFunctions s' = populatedFunctions s /\
  outer s' = outer s /\
  tasks s' = tasks s /\
  submitted s' = submitted s /\
  unhandled s' = unhandled s.

(** A computation that leaves those fields alone. *)
Definition quiet {A} (m : M A) : Prop := forall s, same_core s (snd (m s)).

Definition is_branch (t : task) : bool :=
  match t with
  | SubmitThen => false
  | _ => true
  end.

(** Per-function branches still waiting, and queued submissions. *)
Definition branches (s : state) : nat :=
  List.length (filter is_branch (tasks s)).

Definition submits (s : state) : nat :=
  List.length (filter (fun t => negb (is_branch t)) (tasks s)).

(** The counting invariant of the barrier for [n] declared functions, [r] of
    which [_.each] has not visited yet. *)
Definition barrier_inv (n r : nat) (s : state) : Prop :=
  List.length (populatedFunctions s) + branches s + r <= n /\
  (outer s = Pending -> List.length (populatedFunctions s) = n -> n = 0) /\
  match outer s with
  | Fulfilled =>
      List.length (populatedFunctions s) = n /\
      ((submitted s = [] /\ submits s = 1) \/
       (submitted s = [populatedFunctions s] /\ submits s = 0))
  | _ => submitted s = [] /\ submits s = 0
  end.

(** As long as no callback threw, every function is populated, waiting in a
    branch, or still to be visited. *)
Definition progress_inv (n r : nat) (s : state) : Prop :=
  unhandled s = [] ->
  List.length (populatedFunctions s) + branches s + r = n.

(** ** The properties as the specification words them *)

(** A declared event: one kind, one payload. *)
Definition event_of (kp : string * value) : value := VObj [kp].

(** What the specification asks of the normalized form [r] of an event of
    kind [kind] with payload [payload]: [trigger] and [schedule] keep the
    payload under their own key; for any other kind [type] is the kind and
    the payload's fields are at the top level beside it, with nothing else. *)
Definition normalized_as (kind : string) (payload r : value) : Prop :=
  if String.eqb kind "trigger" then
    r = VObj [("type", VStr "trigger"); ("trigger", payload)]
  else if String.eqb kind "schedule" then
    r = VObj [("type", VStr "schedule"); ("schedule", payload)]
  else
    exists fields,
      r = VObj fields /\
      assoc "type" fields = Some (VStr kind) /\
      (forall k v, assoc k (own_props payload) = Some v -> assoc k fields = Some v) /\
      (forall k, k <> "type" ->
                 assoc k (own_props payload) = None -> assoc k fields = None).

(** The same with the one difference the code makes: for a kind other than
    [trigger] and [schedule], [type] is the kind only when the payload has no
    field of that name; a [type] field of the payload takes its place. *)
Definition flattened_as (kind : string) (payload r : value) : Prop :=
  if String.eqb kind "trigger" then
    r = VObj [("type", VStr "trigger"); ("trigger", payload)]
  else if String.eqb kind "schedule" then
    r = VObj [("type", VStr "schedule"); ("schedule", payload)]
  else
    exists fields,
      r = VObj fields /\
      (assoc "type" (own_props payload) = None ->
       assoc "type" fields = Some (VStr kind)) /\
      (forall k v, assoc k (own_props payload) = Some v -> assoc k fields = Some v) /\
      (forall k, k <> "type" ->
                 assoc k (own_props payload) = None -> assoc k fields = None).

(** Declared events, each of one kind with one payload, whose payload
    objects have distinct keys, as JavaScript objects do. *)
Definition single_keyed (kps : list (string * value)) : Prop :=
  Forall (fun kp => NoDup (List.map fst (own_props (snd kp)))) kps.

(** The rule of the specification for an event list: one record per event,
    in the order of the events, each as [normalized_as] has it. *)
Definition normalizes_by_kind : Prop :=
  forall kps : list (string * value),
    single_keyed kps ->
    exists rs,
      normalizeEvents (VArr (List.map event_of kps)) = Ok (VArr rs) /\
      Forall2 (fun kp r => normalized_as (fst kp) (snd kp) r) kps rs.

(** The example of the specification. *)
Definition spec_events : list (string * value) :=
  [("trigger", VStr "t1"); ("schedule", VStr "* * * * *");
   ("http", VObj [("path", VStr "/x")])].

Definition spec_normalized : value :=
  VArr [VObj [("type", VStr "trigger"); ("trigger", VStr "t1")];
        VObj [("type", VStr "schedule"); ("schedule", VStr "* * * * *")];
        VObj [("type", VStr "http"); ("path", VStr "/x")]].

(** An [http] event whose payload has a [type] of its own. *)
Definition typed_payload : value :=
  VObj [("type", VStr "x"); ("path", VStr "/x")].

Definition typed_events : list (string * value) :=
  (spec_events ++ [("http", typed_payload)])%list.

(** The value of a decimal digit. *)
Definition digit_value (c : ascii) : option N :=
  let n := N_of_ascii c in
  if ((48 <=? n) && (n <=? 57))%N then Some (n - 48)%N else None.

Fixpoint read_digits (acc : N) (s : string) : option N :=
  match s with
  | EmptyString => Some acc
  | String c s' =>
      match digit_value c with
      | Some d => read_digits (10 * acc + d) s'
      | None => None
      end
  end.

(** The number a decimal numeral names: one digit at least, and no leading
    zero but for the numeral of zero itself. *)
Definition read_decimal (s : string) : option N :=
  match s with
  | EmptyString => None
  | String "0" (String _ _) => None
  | _ => read_digits 0 s
  end.

(** The warning of the size check for an archive of [digits] megabytes. *)
Definition warning_naming (digits : string) : string :=
  "WARNING! Function zip file is " ++ digits ++
  "MB. The maximum size allowed is 1MB: please use package.exclude directives to include only the required files".

(** [<directory>/<functionName>.zip] as the specification writes it: the
    archive named after the function, inside the directory. *)
Fixpoint ends_with_slash (p : string) : bool :=
  match p with
  | EmptyString => false
  | String c EmptyString => Ascii.eqb c "/"%char
  | String _ rest => ends_with_slash rest
  end.

Definition artifact_in (directory funcName : string) : string :=
  if ends_with_slash directory
  then directory ++ funcName ++ ".zip"
  else directory ++ "/" ++ funcName ++ ".zip".

(** Every cached key is a buffer that was already handed out. *)
Definition cache_fresh (s : state) : Prop :=
  Forall (fun kv => fst kv < next_buffer s) (zip_cache s).

(** ** A small service to run the plugin on *)

Module Demo.

Definition zip : archive :=
  [("handler.js", "module.exports = {}"); ("package.json", "{}")].

Definition disk (p : string) : option node :=
  if String.eqb p "/out" then Some (Directory 4096)
  else if String.eqb p "/out/" then Some (Directory 4096)
  else if String.eqb p "/out/foo.zip" then Some (RegularFile 2048 (Some zip))
  else if String.eqb p "/art/svc.zip" then Some (RegularFile 2048 (Some zip))
  else if String.eqb p "/art/py.zip" then Some (RegularFile 2048 (Some []))
  else if String.eqb p "/art/big.zip" then Some (RegularFile 1048577 (Some zip))
  else if String.eqb p "/art/edge.zip" then Some (RegularFile 1048576 (Some zip))
  else None.

Definition upload_failed : error := Rejection (VStr "upload failed").

Definition strategy (name : string) (description pkg : value) : res value :=
  if String.eqb name "broken" then Throw upload_failed
  else Ok (VObj [("content", VStr "UEsDBA=="); ("checksum", VStr "sha256:0")]).

Definition depfile (runtime : value) : string :=
  if is_type runtime "python2.7" then "requirements.txt" else "package.json".

Definition cluster : world :=
  {| files := disk; strategy_deploy := strategy;
     getRuntimeDepfile := depfile; config_init := Ok tt |}.

Definition service (functions : list (string * value)) (package opts : props) : plugin :=
  {| service_functions := functions;
     service_provider := [("name", VStr "kubeless"); ("runtime", VStr "nodejs6")];
     service_package := package;
     service_service := VStr "demo";
     config_artifact := VUndef;
     options := opts |}.

Definition hello : value :=
  VObj [("handler", VStr "handler.hello");
        ("events", VArr [VObj [("http", VObj [("path", VStr "/hello")])]])].

Definition report : value :=
  VObj [("handler", VStr "report.run"); ("runtime", VStr "python2.7");
        ("events", VArr [VObj [("schedule", VStr "* * * * *")]])].

Definition meta : props := [("description", VStr "metadata only")].

Definition shared : props := [("artifact", VStr "/art/svc.zip")].

(** One artifact for the service, functions with and without a handler. *)
Definition mixed : plugin :=
  service [("hello", hello); ("meta", VObj meta); ("report", report)] shared [].

Definition only_meta : plugin := service [("meta", VObj meta)] shared [].

Definition no_functions : plugin := service [] shared [].

Definition with_broken : plugin :=
  service [("hello", hello); ("broken", hello)] shared [].

(** [serverless deploy --package <path>] with [package.individually]. *)
Definition individually (path : string) : plugin :=
  service [("foo", hello)] [("individually", VBool true)] [("package", VStr path)].

(** The same disk with every file emptied, and a service whose artifact is
    one byte above the limit. *)
Definition shrink (n : node) : node :=
  match n with
  | Directory _ => Directory 0
  | RegularFile _ z => RegularFile 0 z
  end.

Definition slim : world :=
  {| files := fun p => option_map shrink (disk p); strategy_deploy := strategy;
     getRuntimeDepfile := depfile; config_init := Ok tt |}.

Definition oversized : plugin :=
  service [("hello", hello)] [("artifact", VStr "/art/big.zip")] [].

Definition python_only : plugin :=
  service [("report", report)] [("artifact", VStr "/art/py.zip")] [].

End Demo.

(** C1 as worded: populating a declaration without [handler] appends the
    declaration plus [id] and makes no call to any collaborator. *)
Definition populates_without_resolution
  (W : world) (T : plugin) (fields : props) (name : string) (s : state) : Prop :=
  let s' := snd (each_function W T (VObj fields) name s) in
  populatedFunctions s' =
    (populatedFunctions s ++ [VObj (set_prop "id" (VStr name) fields)])%list /\
  calls s' = calls s.

(** C2 as worded: whatever the function map, once every branch has
    completed the submission has fired exactly once, with one entry per
    declared function. *)
Definition submits_exactly_once (W : world) (T : plugin) : Prop :=
  forall schedule,
    tasks (deployment W T schedule) = [] ->
    exists batch,
      submitted (deployment W T schedule) = [batch] /\
      List.length batch = total T.

Definition nullish (v : value) : bool :=
  match v with
  | VUndef | VNull => true
  | _ => false
  end.

(** The events a declaration lists. *)
Definition declared_events (fields : props) : list value :=
  List.map snd (own_props (field "events" fields)).

(** The buffers handed out and the memoization cache. *)
Definition buffers (s : state) : nat * list (nat * res archive) :=
  (next_buffer s, zip_cache s).

Definition keeps_buffers {A} (m : M A) : Prop :=
  forall s, buffers (snd (m s)) = buffers s.

(** Two worlds that differ at most in the sizes of the files on disk. *)
Definition same_kind (a b : node) : Prop :=
  match a, b with
  | Directory _, Directory _ => True
  | RegularFile _ z, RegularFile _ z' => z = z'
  | _, _ => False
  end.

Definition resized (W W' : world) : Prop :=
  (forall p,
     match files W p, files W' p with
     | Some a, Some b => same_kind a b
     | None, None => True
     | _, _ => False
     end) /\
  (forall name d pkg, strategy_deploy W' name d pkg = strategy_deploy W name d pkg) /\
  (forall runtime, getRuntimeDepfile W' runtime = getRuntimeDepfile W runtime) /\
  config_init W' = config_init W.

(** A state without what was logged. *)
Definition but_log (s : state) : state := set_log [] s.

(** Results of two runs, alike up to a relation on the values returned. *)
Definition res_rel {A} (R : A -> A -> Prop) (r r' : res A) : Prop :=
  match r, r' with
  | Ok a, Ok b => R a b
  | Throw e, Throw e' => e = e'
  | _, _ => False
  end.

(** Two computations that do the same to everything but the log. *)
Definition sim {A} (R : A -> A -> Prop) (m m' : M A) : Prop :=
  forall s s',
    but_log s = but_log s' ->
    res_rel R (fst (m s)) (fst (m' s')) /\
    but_log (snd (m s)) = but_log (snd (m' s')).

(** ** The packaging hook *)

Definition set_package (package : props) (T : plugin) : plugin :=
  {| service_functions := service_functions T;
     service_provider := service_provider T;
     service_package := package;
     service_service := service_service T;
     config_artifact := config_artifact T;
     options := options T |}.

(** [excludes()] (lines 45-49), the hook of
    [before:package:createDeploymentArtifacts]: [push] exists on arrays
    only, and the assignment is not reached when it throws. *)
Definition excludes (T : plugin) : res plugin :=
  exclude <~ or_else (field "exclude" (service_package T)) (Ok (VArr [])) ;;
  match exclude with
  | VArr patterns =>
      Ok (set_package
            (set_prop "exclude" (VArr (patterns ++ [VStr "node_modules/**"]))
               (service_package T))
            T)
  | _ => Throw (TypeError "exclude.push is not a function")
  end.

(** The hook run [n] times. *)
Fixpoint excludes_times (n : nat) (T : plugin) : res plugin :=
  match n with
  | O => Ok T
  | S n' => T' <~ excludes T ;; excludes_times n' T'
  end.

(** ** More to state properties with *)

(** [a || b || ... || z]: the first truthy operand, the last one otherwise. *)
Fixpoint first_truthy (candidates : list value) : value :=
  match candidates with
  | [] => VUndef
  | [v] => v
  | v :: rest => if truthy v then v else first_truthy rest
  end.

(** The [id] of a populated record, and the function a pending callback
    works for. *)
Definition id_of (f : value) : value := field "id" (own_props f).

Definition task_name (t : task) : list string :=
  match t with
  | StrategySettled name _ _ _ => [name]
  | DeployOptionsThen name _ _ _ _ => [name]
  | RequirementsThen name _ _ _ => [name]
  | SubmitThen => []
  end.

Definition waiting (s : state) : list string := flat_map task_name (tasks s).

(** What one iteration of [_.each], or one callback, does to the fields the
    barrier depends on, next to what it queues ([base] is the queue it
    started from). *)
Inductive pushes (n : nat) (name : string) (base : list task) (s s' : state) : Prop :=
| pushes_intro (f : value) :
    id_of f = VStr name ->
    populatedFunctions s' = (populatedFunctions s ++ [f])%list ->
    unhandled s' = unhandled s ->
    submitted s' = submitted s ->
    (tasks s' = base /\ outer s' = outer s \/
     tasks s' = (base ++ [SubmitThen])%list /\
     outer s = Pending /\ outer s' = Fulfilled /\
     List.length (populatedFunctions s') = n) ->
    pushes n name base s s'.

Inductive queues (t : task) (base : list task) (s s' : state) : Prop :=
| queues_intro :
    populatedFunctions s' = populatedFunctions s ->
    unhandled s' = unhandled s ->
    submitted s' = submitted s ->
    tasks s' = (base ++ [t])%list ->
    (outer s' = outer s \/ outer s = Pending /\ exists e, outer s' = Rejected e) ->
    queues t base s s'.

Inductive dies (e : error) (base : list task) (s s' : state) : Prop :=
| dies_intro :
    populatedFunctions s' = populatedFunctions s ->
    unhandled s' = (unhandled s ++ [e])%list ->
    submitted s' = submitted s ->
    tasks s' = base ->
    outer s' = outer s ->
    dies e base s s'.

(** Every declared function is accounted for once: populated, waiting in a
    branch, still to be visited ([rest]), or lost to a throw. *)
Definition accounted (names rest : list string) (s : state) : Prop :=
  exists lost : list string,
    Permutation (List.map VStr names)
      (List.map id_of (populatedFunctions s) ++
       List.map VStr (waiting s ++ rest ++ lost)).

(** Populated, waiting, to be visited and thrown add up to at most the
    number of declared functions. *)
Definition loss_inv (n r : nat) (s : state) : Prop :=
  List.length (populatedFunctions s) + branches s + r + List.length (unhandled s) <= n.

(** The record of a function without a handler (line 148). *)
Definition plain_record (nd : string * value) : value :=
  VObj (Lodash.assign [] [snd nd; VObj [("id", VStr (fst nd))]]).

Definition handlerless (nd : string * value) : bool :=
  match prop "handler" (snd nd) with
  | Ok handler => negb (truthy handler)
  | Throw _ => false
  end.

(** A service that sets [package.exclude] itself. *)
Definition with_excludes : plugin :=
  Demo.service [("hello", Demo.hello)]
    [("artifact", VStr "/art/svc.zip"); ("exclude", VArr [VStr "test/**"])] [].

(** A service whose artifact was not built, and one that names none. *)
Definition unbuilt : plugin :=
  Demo.service [("hello", Demo.hello); ("meta", VObj Demo.meta)]
    [("artifact", VStr "/art/none.zip")] [].

Definition unpackaged : plugin :=
  Demo.service [("hello", Demo.hello)] [] [].

(** A service packaged as a directory. *)
Definition unzipped : plugin :=
  Demo.service [("hello", Demo.hello)] [("path", VStr "/out")] [].

(** A strategy promise is waited for on behalf of a declared function. *)
Definition declared_task (T : plugin) (t : task) : Prop :=
  match t with
  | StrategySettled name description _ _ => In (name, description) (service_functions T)
  | _ => True
  end.

(** The calls that read an archive, and the calls the loop makes for one
    function when every function resolves to the artifact [pkg]. *)
Definition archive_call (c : call) : bool :=
  match c with
  | GetFileContent _ _ | ReadFileSync _ | LoadAsync _ => true
  | _ => false
  end.

Definition loop_calls (pkg : value) (nd : string * value) : list call :=
  [GetPkg (fst nd); CheckSize pkg] ++
  (if handlerless nd then [] else [StrategyDeploy (fst nd) pkg]).

Definition warnings (size : N) : list string :=
  if (oneMB <? size)%N then [size_warning size] else [].

(** Two functions on one oversized artifact. *)
Definition twice_oversized : plugin :=
  Demo.service [("hello", Demo.hello); ("meta", VObj Demo.meta)]
    [("artifact", VStr "/art/big.zip")] [].

(** ** Computations that do not touch the barrier's fields *)

Lemma same_core_refl s : same_core s s.
Proof. repeat split. Qed.

Lemma same_core_trans s1 s2 s3 :
  same_core s1 s2 -> same_core s2 s3 -> same_core s1 s3.
Proof.
  unfold same_core. intros (a1 & a2 & a3 & a4 & a5) (b1 & b2 & b3 & b4 & b5).
  repeat split; congruence.
Qed.

Lemma quiet_ret {A} (a : A) : quiet (ret a).
Proof. intros s. apply same_core_refl. Qed.

Lemma quiet_throw {A} e : quiet (@throw A e).
Proof. intros s. apply same_core_refl. Qed.

Lemma quiet_lift {A} (r : res A) : quiet (lift r).
Proof. intros s. apply same_core_refl. Qed.

Lemma quiet_spy c : quiet (spy c).
Proof. intros s. repeat split. Qed.

Lemma quiet_cli_log msg : quiet (cli_log msg).
Proof. intros s. repeat split. Qed.

Lemma quiet_bind {A B} (m : M A) (k : A -> M B) :
  quiet m -> (forall a, quiet (k a)) -> quiet (bind m k).
Proof.
  intros Hm Hk s. unfold bind. specialize (Hm s).
  destruct (m s) as [[a|e] s1]; simpl in *; auto.
  eapply same_core_trans; [exact Hm | apply Hk].
Qed.

Lemma quiet_if {A} (b : bool) (m1 m2 : M A) :
  quiet m1 -> quiet m2 -> quiet (if b then m1 else m2).
Proof. destruct b; auto. Qed.

Create HintDb quiet.
#[local] Hint Resolve quiet_ret quiet_throw quiet_lift quiet_spy quiet_cli_log
  quiet_if : quiet.

Ltac quiet_tac :=
  repeat first
    [ solve [auto with quiet]
    | apply quiet_if
    | apply quiet_bind; [| intro] ].

Lemma quiet_readFileSync W path : quiet (readFileSync W path).
Proof.
  unfold readFileSync. quiet_tac.
  destruct (files W _) as [[sz|sz z]|]; auto with quiet.
  intros s. repeat split.
Qed.

#[local] Hint Resolve quiet_readFileSync : quiet.

Lemma quiet_loadZip data : quiet (loadZip data).
Proof.
  intros s. unfold loadZip.
  destruct (cache_get _ _); [apply same_core_refl|].
  repeat split.
Qed.

#[local] Hint Resolve quiet_loadZip : quiet.

Lemma quiet_getFileContent W zipFile relativePath :
  quiet (getFileContent W zipFile relativePath).
Proof.
  unfold getFileContent. quiet_tac.
Qed.

Lemma quiet_checkSize W pkg : quiet (checkSize W pkg).
Proof. unfold checkSize. quiet_tac. Qed.

Lemma quiet_getPkg W T description funcName : quiet (getPkg W T description funcName).
Proof.
  unfold getPkg. quiet_tac.
Qed.

(** ** The barrier invariant *)

Lemma filter_remove_nth {A} (p : A -> bool) (l : list A) i t :
  nth_error l i = Some t ->
  List.length (filter p l) =
  (if p t then 1 else 0) + List.length (filter p (remove_nth i l)).
Proof.
  revert i. induction l as [|x l IH]; intros [|i] H; simpl in *; try discriminate.
  - injection H as ->. destruct (p t); reflexivity.
  - specialize (IH _ H). destruct (p x); simpl; rewrite IH; lia.
Qed.

Lemma barrier_inv_core n r s s' :
  same_core s s' -> barrier_inv n r s -> barrier_inv n r s'.
Proof.
  intros (H1 & H2 & H3 & H4 & H5).
  unfold barrier_inv, branches, submits. now rewrite H1, H2, H3, H4.
Qed.

Lemma progress_inv_core n r s s' :
  same_core s s' -> progress_inv n r s -> progress_inv n r s'.
Proof.
  intros (H1 & H2 & H3 & H4 & H5).
  unfold progress_inv, branches. now rewrite H1, H3, H5.
Qed.

Lemma barrier_inv_weaken n r s : barrier_inv n r s -> barrier_inv n 0 s.
Proof. unfold barrier_inv. intros (H1 & H2 & H3). repeat split; auto; lia. Qed.

Lemma barrier_inv_unhandled n r es s :
  barrier_inv n r s -> barrier_inv n r (set_unhandled es s).
Proof. auto. Qed.

Lemma progress_inv_thrown n r e s : progress_inv n r (set_unhandled (unhandled s ++ [e]) s).
Proof. unfold progress_inv. simpl. intros H. now destruct (unhandled s). Qed.

Section Invariant.

Variable W : world.
Variable T : plugin.

Let n := total T.

(** A branch task is replaced by its successor. *)
Lemma spawn_branch_inv r t s :
  is_branch t = true ->
  barrier_inv n (S r) s /\ progress_inv n (S r) s ->
  barrier_inv n r (set_tasks (tasks s ++ [t]) s) /\
  progress_inv n r (set_tasks (tasks s ++ [t]) s).
Proof.
  intros Ht [(H1 & H2 & H3) HP].
  unfold barrier_inv, progress_inv, branches, submits in *. simpl.
  rewrite !filter_app, !length_app. simpl. rewrite Ht. simpl.
  split; [split; [lia | split; [exact H2|]] | intros Hu; specialize (HP Hu); lia].
  destruct (outer s); rewrite Nat.add_0_r; auto.
Qed.

(** [populatedFunctions.push(...)] followed by the length check. *)
Lemma push_barrier_inv r f s :
  barrier_inv n (S r) s /\ progress_inv n (S r) s ->
  barrier_inv n r (snd (barrier T (snd (push f s)))) /\
  progress_inv n r (snd (barrier T (snd (push f s)))).
Proof.
  intros [(H1 & H2 & H3) HP].
  unfold barrier, push, resolve. simpl. fold n.
  rewrite length_app. simpl.
  destruct (Nat.eqb_spec (List.length (populatedFunctions s) + 1) n) as [E|E].
  - destruct (outer s) eqn:Ho; simpl;
      unfold barrier_inv, progress_inv, branches, submits in *; simpl;
      rewrite ?Ho; rewrite ?filter_app, ?length_app; simpl.
    + destruct H3 as [H3 H4].
      split; [split; [lia | split; [discriminate|]] | intros Hu; specialize (HP Hu); lia].
      split; [lia|]. left. split; [assumption | lia].
    + lia.
    + split; [split; [lia | split; [discriminate | assumption]]
             | intros Hu; specialize (HP Hu); lia].
  - simpl. unfold barrier_inv, progress_inv, branches, submits in *. simpl.
    rewrite length_app. simpl.
    split; [split; [lia | split; [intros _ Hl; lia |]]
           | intros Hu; specialize (HP Hu); lia].
    destruct (outer s); auto. lia.
Qed.

Lemma barrier_ok s : fst (barrier T s) = Ok tt.
Proof.
  unfold barrier, resolve.
  destruct (Nat.eqb _ _); [destruct (outer s)|]; reflexivity.
Qed.

Lemma each_function_inv r description name s :
  barrier_inv n (S r) s /\ progress_inv n (S r) s ->
  match each_function W T description name s with
  | (Ok _, s') => barrier_inv n r s' /\ progress_inv n r s'
  | (Throw _, s') => barrier_inv n 0 s'
  end.
Proof.
  intros [HB HP]. unfold each_function, bind.
  pose proof (quiet_getPkg W T description name s) as Q1.
  destruct (getPkg W T description name s) as [[pkg|e] s1]; simpl in Q1.
  2: { apply barrier_inv_weaken with (r := S r).
       eapply barrier_inv_core; eassumption. }
  pose proof (quiet_checkSize W pkg s1) as Q2.
  assert (Q : same_core s (snd (checkSize W pkg s1)))
    by (eapply same_core_trans; eassumption).
  clear Q1 Q2.
  destruct (checkSize W pkg s1) as [[[]|e] s2]; simpl in Q.
  2: { apply barrier_inv_weaken with (r := S r).
       eapply barrier_inv_core; eassumption. }
  assert (HB2 : barrier_inv n (S r) s2) by (eapply barrier_inv_core; eassumption).
  assert (HP2 : progress_inv n (S r) s2) by (eapply progress_inv_core; eassumption).
  unfold lift.
  destruct (prop "handler" description) as [handler|e];
    [| eapply barrier_inv_weaken; eauto].
  destruct (truthy handler).
  - destruct (rbind _ _) as [rt|e]; [| eapply barrier_inv_weaken; eauto].
    unfold spy, spawn. simpl.
    apply (spawn_branch_inv r _ (set_calls (calls s2 ++ [StrategyDeploy name pkg]) s2));
      [reflexivity | split; assumption].
  - pose proof (push_barrier_inv r
      (VObj (Lodash.assign [] [description; VObj [("id", VStr name)]])) s2
      (conj HB2 HP2)) as H.
    pose proof (barrier_ok
      (snd (push (VObj (Lodash.assign [] [description; VObj [("id", VStr name)]])) s2)))
      as Hok.
    unfold push in *. simpl in *.
    destruct (barrier T _) as [[[]|e] s3]; simpl in *; [exact H | discriminate].
Qed.

Lemma each_inv fs s :
  barrier_inv n (List.length fs) s /\ progress_inv n (List.length fs) s ->
  match each W T fs s with
  | (Ok _, s') => barrier_inv n 0 s' /\ progress_inv n 0 s'
  | (Throw _, s') => barrier_inv n 0 s'
  end.
Proof.
  revert s. induction fs as [|[name description] fs IH]; intros s H; simpl.
  - exact H.
  - unfold bind.
    pose proof (each_function_inv (List.length fs) description name s H) as H1.
    destruct (each_function W T description name s) as [[[]|e] s1];
      [apply IH; exact H1 | exact H1].
Qed.

Lemma settle_inv r :
  match r with
  | (Ok _, s') => barrier_inv n 0 s' /\ progress_inv n 0 s'
  | (Throw _, s') => barrier_inv n 0 s'
  end ->
  barrier_inv n 0 (settle r) /\ progress_inv n 0 (settle r).
Proof.
  destruct r as [[[]|e] s]; simpl; auto.
  intros H. split; [now apply barrier_inv_unhandled | apply progress_inv_thrown].
Qed.

Lemma initial_inv : barrier_inv n n initial /\ progress_inv n n initial.
Proof.
  unfold barrier_inv, progress_inv, branches, submits. simpl.
  repeat split; auto.
Qed.

Lemma deployFunction_inv :
  barrier_inv n 0 (deployFunction W T initial) /\
  progress_inv n 0 (deployFunction W T initial).
Proof.
  unfold deployFunction. destruct (config_init W).
  - apply settle_inv, each_inv. apply initial_inv.
  - split.
    + apply barrier_inv_unhandled. eapply barrier_inv_weaken, initial_inv.
    + apply progress_inv_thrown.
Qed.

End Invariant.

Section EventLoop.

Variable W : world.
Variable T : plugin.

Let n := total T.

(** Taking a branch's callback off the queue leaves room for one function. *)
Lemma take_branch_inv i t s :
  nth_error (tasks s) i = Some t ->
  is_branch t = true ->
  barrier_inv n 0 s /\ progress_inv n 0 s ->
  barrier_inv n 1 (set_tasks (remove_nth i (tasks s)) s) /\
  progress_inv n 1 (set_tasks (remove_nth i (tasks s)) s).
Proof.
  intros Hi Ht [(H1 & H2 & H3) HP].
  pose proof (filter_remove_nth is_branch _ _ _ Hi) as Fb.
  pose proof (filter_remove_nth (fun t => negb (is_branch t)) _ _ _ Hi) as Fs.
  cbv beta in Fs. rewrite Ht in Fb, Fs. simpl in Fb, Fs.
  unfold barrier_inv, progress_inv, branches, submits in *. simpl.
  rewrite <- Fs.
  split; [split; [lia | split; assumption] | intros Hu; specialize (HP Hu); lia].
Qed.

Lemma reject_inv r e s :
  barrier_inv n r s /\ progress_inv n r s ->
  barrier_inv n r (snd (reject e s)) /\ progress_inv n r (snd (reject e s)).
Proof.
  intros [(H1 & H2 & H3) HP]. unfold reject.
  destruct (outer s) eqn:Ho; simpl;
    unfold barrier_inv, progress_inv, branches, submits in *; simpl;
    rewrite ?Ho; (split; [split; [exact H1 | split; [|exact H3]] | exact HP]);
    solve [assumption | discriminate].
Qed.

Lemma callback_branch_inv t s :
  is_branch t = true ->
  barrier_inv n 1 s /\ progress_inv n 1 s ->
  barrier_inv n 0 (settle (callback W T t s)) /\
  progress_inv n 0 (settle (callback W T t s)).
Proof.
  intros Ht H. apply settle_inv.
  destruct t as [name d pkg depFile | name d pkg depFile opts | name d opts req |];
    try discriminate; unfold callback, bind.
  - destruct (strategy_deploy W name d pkg) as [v|e]; unfold ret, spawn; simpl.
    + apply (spawn_branch_inv T 0); [reflexivity | exact H].
    + pose proof (reject_inv 1 e s H) as H'.
      destruct (reject e s) as [[[]|e'] s1] eqn:E; simpl in *.
      * apply (spawn_branch_inv T 0); [reflexivity | exact H'].
      * unfold reject in E. destruct (outer s); discriminate.
  - pose proof (quiet_getFileContent W pkg depFile s) as Q.
    destruct (getFileContent W pkg depFile s) as [[settled|e] s1]; simpl in Q.
    + unfold spawn. simpl.
      apply (spawn_branch_inv T 0); [reflexivity|].
      destruct H; split;
        [eapply barrier_inv_core | eapply progress_inv_core]; eassumption.
    + apply barrier_inv_weaken with (r := 1).
      destruct H. eapply barrier_inv_core; eassumption.
  - unfold lift. destruct (populate T name d opts req) as [f|e].
    + pose proof (push_barrier_inv T 0 f s H) as H'.
      pose proof (barrier_ok T (snd (push f s))) as Hok.
      unfold push in *. simpl in *.
      destruct (barrier T _) as [[[]|e] s3]; simpl in *; [exact H' | discriminate].
    + apply barrier_inv_weaken with (r := 1). apply H.
Qed.

Lemma step_inv i s :
  barrier_inv n 0 s /\ progress_inv n 0 s ->
  barrier_inv n 0 (step W T i s) /\ progress_inv n 0 (step W T i s).
Proof.
  intros H. unfold step.
  destruct (nth_error (tasks s) i) as [t|] eqn:Hi; [|exact H].
  destruct (is_branch t) eqn:Ht.
  - apply callback_branch_inv; [assumption|].
    eapply take_branch_inv; eassumption.
  - destruct t; try discriminate. simpl.
    destruct H as [(H1 & H2 & H3) HP].
    pose proof (filter_remove_nth is_branch _ _ _ Hi) as Fb.
    pose proof (filter_remove_nth (fun t => negb (is_branch t)) _ _ _ Hi) as Fs.
    simpl in Fb, Fs.
    unfold barrier_inv, progress_inv, branches, submits in *. simpl.
    rewrite <- Fb.
    split; [split; [assumption | split; [assumption|]] | assumption].
    destruct (outer s).
    + destruct H3 as [_ H3]. lia.
    + destruct H3 as [H3 [[H4 H5]|[H4 H5]]]; [|lia].
      split; [assumption|]. right. rewrite H4. split; [reflexivity | lia].
    + destruct H3 as [_ H3]. lia.
Qed.

Lemma run_inv schedule s :
  barrier_inv n 0 s /\ progress_inv n 0 s ->
  barrier_inv n 0 (run W T schedule s) /\ progress_inv n 0 (run W T schedule s).
Proof.
  revert s. induction schedule as [|i schedule IH]; intros s H; simpl.
  - exact H.
  - apply IH, step_inv, H.
Qed.

Lemma deployment_inv schedule :
  barrier_inv n 0 (deployment W T schedule) /\
  progress_inv n 0 (deployment W T schedule).
Proof. apply run_inv, deployFunction_inv. Qed.

(** A settled promise stays as it is. *)
Lemma barrier_outer s :
  outer s <> Pending -> outer (snd (barrier T s)) = outer s.
Proof.
  unfold barrier, resolve. intros H.
  destruct (Nat.eqb _ _); [|reflexivity].
  destruct (outer s) eqn:Ho; simpl; congruence.
Qed.

Lemma step_outer_settled i s :
  outer s <> Pending -> outer (step W T i s) = outer s.
Proof.
  intros H. unfold step.
  destruct (nth_error (tasks s) i) as [t|]; [|reflexivity].
  set (s0 := set_tasks (remove_nth i (tasks s)) s).
  assert (H0 : outer s0 = outer s) by reflexivity.
  destruct t as [name d pkg depFile | name d pkg depFile opts | name d opts req |];
    unfold callback, bind.
  - destruct (strategy_deploy W name d pkg) as [v|e]; simpl; [assumption|].
    unfold reject. destruct (outer s0) eqn:Ho; simpl; congruence.
  - pose proof (quiet_getFileContent W pkg depFile s0) as (_ & Q & _).
    destruct (getFileContent W pkg depFile s0) as [[settled|e] s1]; simpl in *;
      congruence.
  - unfold lift. destruct (populate T name d opts req) as [f|e]; simpl; [|assumption].
    pose proof (barrier_outer (snd (push f s0))) as B.
    pose proof (barrier_ok T (snd (push f s0))) as Hok.
    unfold push in *. simpl in *.
    destruct (barrier T _) as [[[]|e] s3]; simpl in *; [|discriminate].
    rewrite B; congruence.
  - simpl. assumption.
Qed.

Lemma run_outer_settled schedule s :
  outer s <> Pending -> outer (run W T schedule s) = outer s.
Proof.
  revert s. induction schedule as [|i schedule IH]; intros s H; simpl.
  - reflexivity.
  - rewrite IH; rewrite step_outer_settled; auto.
Qed.

End EventLoop.

(** ** Objects and [_.assign] *)

Lemma assoc_set_prop_same k v ps : assoc k (set_prop k v ps) = Some v.
Proof.
  induction ps as [|[k' v'] ps IH]; simpl.
  - now rewrite String.eqb_refl.
  - destruct (String.eqb k k') eqn:E; simpl; rewrite E; auto.
Qed.

Lemma assoc_set_prop_other k k' v ps :
  k <> k' -> assoc k (set_prop k' v ps) = assoc k ps.
Proof.
  intros Hne. induction ps as [|[k2 v2] ps IH]; simpl.
  - destruct (String.eqb_spec k k'); congruence.
  - destruct (String.eqb_spec k' k2); simpl.
    + subst. destruct (String.eqb_spec k k2); congruence.
    + now rewrite IH.
Qed.

Lemma assoc_None_notin k ps : assoc k ps = None <-> ~ In k (List.map fst ps).
Proof.
  induction ps as [|[k' v'] ps IH]; simpl.
  - tauto.
  - destruct (String.eqb_spec k k'); subst.
    + split; [discriminate | tauto].
    + rewrite IH. split; intros H; [intros [?|?]; [congruence|tauto] | tauto].
Qed.

(** With distinct keys in the source, [_.assign] reads as: the source's
    value where it has the key, the target's otherwise. *)
Lemma assoc_assign1 k target source :
  NoDup (List.map fst (own_props source)) ->
  assoc k (Lodash.assign1 target source) =
  match assoc k (own_props source) with
  | Some v => Some v
  | None => assoc k target
  end.
Proof.
  unfold Lodash.assign1. generalize (own_props source) as ps.
  intros ps. revert target.
  induction ps as [|[k' v'] ps IH]; intros target Hnd; simpl.
  - reflexivity.
  - inversion Hnd as [|? ? Hnotin Hnd']; subst.
    rewrite IH by assumption.
    destruct (String.eqb_spec k k'); subst.
    + apply assoc_None_notin in Hnotin. rewrite Hnotin.
      apply assoc_set_prop_same.
    + destruct (assoc k ps); auto. now apply assoc_set_prop_other.
Qed.

Lemma set_prop_fresh k v ps :
  ~ In k (List.map fst ps) -> set_prop k v ps = (ps ++ [(k, v)])%list.
Proof.
  induction ps as [|[k' v'] ps IH]; simpl; intros H.
  - reflexivity.
  - destruct (String.eqb_spec k k'); [subst; tauto|].
    rewrite IH; [reflexivity | tauto].
Qed.

(** Copying an object into a fresh one gives the same object. *)
Lemma assign1_append acc ps :
  NoDup (List.map fst (acc ++ ps)%list) ->
  Lodash.assign1 acc (VObj ps) = (acc ++ ps)%list.
Proof.
  unfold Lodash.assign1. simpl. revert acc.
  induction ps as [|[k v] ps IH]; intros acc Hnd; simpl.
  - now rewrite app_nil_r.
  - rewrite set_prop_fresh.
    + rewrite IH; rewrite <- app_assoc; [reflexivity | exact Hnd].
    + rewrite map_app in Hnd. simpl in Hnd.
      apply NoDup_remove_2 in Hnd. intros Hin. apply Hnd.
      apply in_or_app. now left.
Qed.

Lemma assign_copy ps :
  NoDup (List.map fst ps) -> Lodash.assign1 [] (VObj ps) = ps.
Proof. intros H. now rewrite assign1_append. Qed.

(** ** Event normalization *)

Lemma map_snd_indexed i vs : List.map snd (indexed i vs) = vs.
Proof.
  revert i. induction vs as [|v vs IH]; intros i; simpl; [|rewrite IH]; reflexivity.
Qed.

Lemma normalizeEvent_single kind payload :
  NoDup (List.map fst (own_props payload)) ->
  exists r, normalizeEvent (event_of (kind, payload)) = Ok r /\
            flattened_as kind payload r.
Proof.
  intros Hnd. unfold normalizeEvent, event_of, flattened_as, first_key. simpl.
  rewrite String.eqb_refl.
  destruct (String.eqb_spec kind "trigger") as [->|Ht]; simpl.
  - eexists; split; reflexivity.
  - destruct (String.eqb_spec kind "schedule") as [->|Hs]; simpl.
    + eexists; split; reflexivity.
    + eexists; split; [reflexivity|].
      eexists; split; [reflexivity|].
      split; [|split].
      * intros Hno. rewrite assoc_assign1 by assumption. now rewrite Hno.
      * intros k v Hk. rewrite assoc_assign1 by assumption. now rewrite Hk.
      * intros k Hne Hk. rewrite assoc_assign1 by assumption. rewrite Hk. simpl.
        destruct (String.eqb_spec k "type"); [contradiction | reflexivity].
Qed.

(** Where the payload has no [type] of its own, the record is the one the
    specification describes. *)
Lemma flattened_normalized kind payload r :
  assoc "type" (own_props payload) = None ->
  flattened_as kind payload r -> normalized_as kind payload r.
Proof.
  unfold flattened_as, normalized_as. intros Hno.
  destruct (String.eqb kind "trigger"); [auto|].
  destruct (String.eqb kind "schedule"); [auto|].
  intros (fields & -> & Ht & Hp & Hn).
  exists fields. repeat split; auto.
Qed.

Lemma map_list_normalizeEvent kps :
  single_keyed kps ->
  exists rs,
    Lodash.map_list normalizeEvent (List.map event_of kps) = Ok rs /\
    Forall2 (fun kp r => flattened_as (fst kp) (snd kp) r) kps rs.
Proof.
  induction 1 as [|[kind payload] kps Hnd _ IH]; simpl.
  - exists []. split; [reflexivity | constructor].
  - destruct (normalizeEvent_single kind payload Hnd) as (r & Hr & Hs).
    destruct IH as (rs & Hrs & HF).
    exists (r :: rs). rewrite Hr. simpl. rewrite Hrs. simpl.
    split; [reflexivity | constructor; assumption].
Qed.

(** C6, as worded, fails on a payload with a [type] field of its own: the
    record of [{http: {type: 'x', path: '/x'}}] has [type] ['x'], not
    ['http'], so the rule of the specification does not hold of every
    event list. *)
Lemma payload_type_replaces_kind :
  normalizeEvents (VArr [event_of ("http", typed_payload)]) =
    Ok (VArr [VObj [("type", VStr "x"); ("path", VStr "/x")]]) /\
  ~ normalized_as "http" typed_payload
      (VObj [("type", VStr "x"); ("path", VStr "/x")]) /\
  ~ normalizes_by_kind.
Proof.
  assert (Hno : forall r,
             normalizeEvents (VArr [event_of ("http", typed_payload)]) = Ok (VArr [r]) ->
             ~ normalized_as "http" typed_payload r).
  { intros r Hr (fields & -> & Ht & _). vm_compute in Hr.
    injection Hr as <-. discriminate Ht. }
  split; [reflexivity|]. split; [apply Hno; reflexivity|].
  intros H.
  destruct (H [("http", typed_payload)]) as (rs & Hrs & HF).
  - repeat constructor; simpl; intuition discriminate.
  - inversion HF as [|kp r kps rs' Hr HF' E1 E2]; subst.
    inversion HF'; subst. exact (Hno r Hrs Hr).
Qed.

(** C6: normalization keeps the order of the declared events and maps each
    by its single key: [trigger] and [schedule] keep their payload nested
    under their own key; any other kind gets the fields of its payload at
    the top level, and [type] is the kind when the payload has no [type]
    field of its own, which otherwise takes its place. On every event whose
    payload has no such field the record is the one the specification
    describes, and its example holds as written. *)
Theorem normalizeEvents_by_kind :
  normalizeEvents (VArr (List.map event_of spec_events)) = Ok spec_normalized /\
  forall kps : list (string * value),
    single_keyed kps ->
    exists rs,
      normalizeEvents (VArr (List.map event_of kps)) = Ok (VArr rs) /\
      Forall2 (fun kp r =>
                 flattened_as (fst kp) (snd kp) r /\
                 (assoc "type" (own_props (snd kp)) = None ->
                  normalized_as (fst kp) (snd kp) r)) kps rs.
Proof.
  split; [reflexivity|].
  intros kps H. destruct (map_list_normalizeEvent kps H) as (rs & Hrs & HF).
  exists rs. split.
  - unfold normalizeEvents, Lodash.map. simpl own_props.
    rewrite map_snd_indexed, Hrs. reflexivity.
  - clear Hrs H. induction HF as [|kp r kps rs Hr _ IH]; constructor; [|exact IH].
    split; [exact Hr|]. intros Hno. now apply flattened_normalized.
Qed.

Lemma normalizeEvents_by_kind_witness :
  single_keyed typed_events /\
  exists rs,
    normalizeEvents (VArr (List.map event_of typed_events)) = Ok (VArr rs) /\
    Forall2 (fun kp r =>
               flattened_as (fst kp) (snd kp) r /\
               (assoc "type" (own_props (snd kp)) = None ->
                normalized_as (fst kp) (snd kp) r)) typed_events rs.
Proof.
  assert (H : single_keyed typed_events).
  { repeat constructor; simpl; intuition discriminate. }
  split; [exact H|].
  exact (proj2 normalizeEvents_by_kind typed_events H).
Defined.

(** ** Artifact resolution *)

Lemma getPkg_calls W T description funcName s :
  calls (snd (getPkg W T description funcName s)) = (calls s ++ [GetPkg funcName])%list.
Proof.
  unfold getPkg, bind, spy, lift, ret, throw, cli_log. simpl.
  destruct (or_else _ _) as [pkg|e]; simpl; [|reflexivity].
  destruct (_ && _); [|reflexivity].
  destruct (path_of pkg) as [p|e]; simpl; [|reflexivity].
  destruct (statSync W pkg) as [stat|e]; simpl; [|reflexivity].
  destruct (isDirectory stat); reflexivity.
Qed.

(** With [--package P] and [package.individually], a directory [P] resolves
    to [P] followed by the function name and [.zip]. *)
Lemma getPkg_individually W T description funcName p size s :
  field "package" (options T) = VStr p ->
  p <> "" ->
  truthy (field "individually" (service_package T)) = true ->
  files W p = Some (Directory size) ->
  fst (getPkg W T description funcName s) = Ok (VStr (p ++ funcName ++ ".zip")).
Proof.
  intros Hp Hne Hi Hf.
  unfold getPkg, bind, spy, lift, ret. simpl.
  rewrite Hp, Hi. unfold or_else at 1. simpl.
  destruct (String.eqb_spec p "") as [|_]; [contradiction|]. simpl.
  unfold statSync. simpl. rewrite Hf. reflexivity.
Qed.

(** C7: the artifact of an individually packaged function is looked up at
    the supplied directory path followed directly by [<functionName>.zip];
    for [--package /out] that is [/outfoo.zip], not the [foo.zip] that lives
    in [/out], and the deployment stops at the size check of a file that
    does not exist. With the trailing separator of the specification's
    example the two agree and the function is deployed. *)
Theorem getPkg_directory_without_separator :
  (forall (W : world) (T : plugin) (description : value) (funcName p : string)
          (size : N) (s : state),
     field "package" (options T) = VStr p ->
     p <> "" ->
     truthy (field "individually" (service_package T)) = true ->
     files W p = Some (Directory size) ->
     fst (getPkg W T description funcName s) = Ok (VStr (p ++ funcName ++ ".zip"))) /\
  fst (getPkg Demo.cluster (Demo.individually "/out") Demo.hello "foo" initial)
    = Ok (VStr "/outfoo.zip") /\
  artifact_in "/out" "foo" = "/out/foo.zip" /\
  unhandled (deployment Demo.cluster (Demo.individually "/out") [0; 0; 0; 0])
    = [ENOENT "/outfoo.zip"] /\
  fst (getPkg Demo.cluster (Demo.individually "/out/") Demo.hello "foo" initial)
    = Ok (VStr (artifact_in "/out/" "foo")) /\
  List.length (submitted (deployment Demo.cluster (Demo.individually "/out/") [0; 0; 0; 0]))
    = 1.
Proof.
  split; [exact getPkg_individually|].
  split; [|split; [reflexivity|split; [reflexivity|split; [|reflexivity]]]].
  - apply (getPkg_individually Demo.cluster (Demo.individually "/out")
             Demo.hello "foo" "/out" 4096%N initial); try reflexivity.
    discriminate.
  - apply (getPkg_individually Demo.cluster (Demo.individually "/out/")
             Demo.hello "foo" "/out/" 4096%N initial); try reflexivity.
    discriminate.
Qed.

(** ** Size check *)

Lemma round_div_nearest a b :
  (b <> 0)%N ->
  (2 * round_div a b * b <= 2 * a + b < 2 * (round_div a b + 1) * b)%N.
Proof.
  intros Hb. unfold round_div.
  pose proof (N.Div0.div_mod (2 * a + b) (2 * b)) as D.
  pose proof (N.mod_lt (2 * a + b) (2 * b)) as L.
  assert (H : (2 * b <> 0)%N) by lia. specialize (L H).
  set (q := ((2 * a + b) / (2 * b))%N) in *.
  set (m := ((2 * a + b) mod (2 * b))%N) in *.
  clearbody q m.
  replace (2 * q * b)%N with (2 * b * q)%N by lia.
  replace (2 * (q + 1) * b)%N with (2 * b * q + 2 * b)%N by lia.
  lia.
Qed.

(** [decimal] writes the numeral of its argument: the digits read back as
    the number, most significant first, and none is a leading zero. *)
Lemma read_digits_uint d u :
  read_digits (DecimalPos.Unsigned.of_lu u) (NilEmpty.string_of_uint d) =
  Some (DecimalPos.Unsigned.of_lu (Decimal.revapp d u)).
Proof.
  revert u. induction d; intros u;
    cbn [NilEmpty.string_of_uint read_digits Decimal.revapp]; [reflexivity|..];
    match goal with
    | |- context [digit_value ?c] =>
        let v := eval vm_compute in (digit_value c) in
        change (digit_value c) with v
    end; cbv iota beta;
    match goal with
    | |- read_digits ?a _ = Some (DecimalPos.Unsigned.of_lu (Decimal.revapp _ ?v)) =>
        replace a with (DecimalPos.Unsigned.of_lu v)
          by (cbn [DecimalPos.Unsigned.of_lu]; lia)
    end; apply IHd.
Qed.

Lemma read_digits_to_uint n :
  read_digits 0 (NilEmpty.string_of_uint (N.to_uint n)) = Some n.
Proof.
  change 0%N with (DecimalPos.Unsigned.of_lu Decimal.Nil).
  rewrite read_digits_uint. fold (Decimal.rev (N.to_uint n)).
  rewrite <- DecimalPos.Unsigned.of_uint_alt.
  f_equal. apply DecimalN.Unsigned.of_to.
Qed.

Lemma nzhead_no_zero d d' : Decimal.nzhead d <> Decimal.D0 d'.
Proof. induction d; simpl; try discriminate. exact IHd. Qed.

Lemma to_uint_canonical n :
  N.to_uint n = Decimal.D0 Decimal.Nil \/
  (N.to_uint n <> Decimal.Nil /\ forall d, N.to_uint n <> Decimal.D0 d).
Proof.
  pose proof (DecimalN.Unsigned.to_of (N.to_uint n)) as H.
  rewrite DecimalN.Unsigned.of_to in H.
  unfold Decimal.unorm in H.
  destruct (Decimal.nzhead (N.to_uint n)) eqn:E;
    [left; exact H
    | right; rewrite H; split; [discriminate|]; intros d'; try discriminate..].
  rewrite <- E. apply nzhead_no_zero.
Qed.

Lemma read_decimal_decimal n : read_decimal (decimal n) = Some n.
Proof.
  pose proof (read_digits_to_uint n) as R.
  unfold decimal.
  destruct (to_uint_canonical n) as [H | [Hnil H0]].
  - rewrite H in *. simpl in *. exact R.
  - destruct (N.to_uint n) eqn:E; try (now destruct Hnil); try exact R;
      [now destruct (H0 u)].
Qed.

(** The text of the warning: the fixed sentence around a numeral that reads
    as the size in megabytes, rounded. *)
Lemma size_warning_names size :
  exists digits,
    read_decimal digits = Some (round_div size oneMB) /\
    size_warning size = warning_naming digits.
Proof.
  exists (decimal (round_div size oneMB)).
  split; [apply read_decimal_decimal | reflexivity].
Qed.

(** One call: the warning is logged exactly above 1,048,576 bytes, its text
    names the size in megabytes rounded to the nearest integer, and the
    call returns normally without touching the population state. *)
Lemma checkSize_warns (W : world) (pkg : value) (stat : node) (s : state) :
  statSync W pkg = Ok stat ->
  let size := node_size stat in
  let mb := round_div size oneMB in
  exists s',
    checkSize W pkg s = (Ok tt, s') /\
    ((1048576 < size)%N ->
     exists digits,
       read_decimal digits = Some mb /\
       log s' = (log s ++ [warning_naming digits])%list) /\
    ((size <= 1048576)%N -> log s' = log s) /\
    (2 * mb * 1048576 <= 2 * size + 1048576 < 2 * (mb + 1) * 1048576)%N /\
    same_core s s'.
Proof.
  intros Hstat size mb.
  unfold checkSize, bind, spy, lift. simpl. rewrite Hstat. fold size.
  change oneMB with 1048576%N.
  assert (Hmb : (2 * mb * 1048576 <= 2 * size + 1048576 < 2 * (mb + 1) * 1048576)%N)
    by (apply (round_div_nearest size 1048576); lia).
  destruct (size_warning_names size) as (digits & Hread & Htext).
  destruct (N.ltb_spec 1048576 size) as [Hlt|Hle].
  - eexists. split; [reflexivity|]. simpl.
    split; [intros _; exists digits; split; [exact Hread | now rewrite Htext]|].
    split; [lia|].
    split; [exact Hmb | repeat split].
  - eexists. split; [reflexivity|]. simpl.
    split; [lia|]. split; [reflexivity|].
    split; [exact Hmb | repeat split].
Qed.

Lemma checkSize_calls W pkg s :
  calls (snd (checkSize W pkg s)) = (calls s ++ [CheckSize pkg])%list.
Proof.
  unfold checkSize, bind, spy, lift, ret, cli_log. simpl.
  destruct (statSync W pkg) as [stat|e]; simpl; [|reflexivity].
  destruct (_ <? _)%N; reflexivity.
Qed.

(** ** The size of an artifact only shows in the log *)

Lemma sim_ret {A} (R : A -> A -> Prop) a b : R a b -> sim R (ret a) (ret b).
Proof. intros H s s' Hs. split; [exact H | exact Hs]. Qed.

Lemma sim_throw {A} (R : A -> A -> Prop) e : sim R (throw e) (throw e).
Proof. intros s s' Hs. split; [reflexivity | exact Hs]. Qed.

Lemma sim_lift {A} (R : A -> A -> Prop) r r' :
  res_rel R r r' -> sim R (lift r) (lift r').
Proof. intros H s s' Hs. split; [exact H | exact Hs]. Qed.

Lemma res_rel_eq_refl {A} (r : res A) : res_rel eq r r.
Proof. destruct r; reflexivity. Qed.

Lemma sim_bind {A B} (R : A -> A -> Prop) (Q : B -> B -> Prop)
  (m m' : M A) (k k' : A -> M B) :
  sim R m m' ->
  (forall a b, R a b -> sim Q (k a) (k' b)) ->
  sim Q (bind m k) (bind m' k').
Proof.
  intros Hm Hk s s' Hs. unfold bind.
  destruct (Hm s s' Hs) as [Hr Hs1].
  destruct (m s) as [[a|e] s1], (m' s') as [[b|e'] s1']; simpl in *;
    try contradiction.
  - apply Hk; assumption.
  - split; assumption.
Qed.

Ltac same_fields H :=
  unfold but_log, set_log in H; injection H as ? ? ? ? ? ? ? ?.

Ltac sim_prim :=
  let s := fresh "s" in
  let s' := fresh "s'" in
  let H := fresh "H" in
  intros s s' H; destruct s, s'; same_fields H; simpl in *; subst;
  try (match goal with |- context [match ?o with Pending => _ | _ => _ end] =>
         destruct o end);
  try (match goal with |- context [if ?b then _ else _] => destruct b end);
  simpl; split; reflexivity.

Lemma sim_spy c : sim eq (spy c) (spy c).
Proof. unfold spy. sim_prim. Qed.

Lemma sim_spawn t : sim eq (spawn t) (spawn t).
Proof. unfold spawn. sim_prim. Qed.

Lemma sim_push f : sim eq (push f) (push f).
Proof. unfold push. sim_prim. Qed.

Lemma sim_reject e : sim eq (reject e) (reject e).
Proof. unfold reject. sim_prim. Qed.

Lemma sim_resolve : sim eq resolve resolve.
Proof. unfold resolve. sim_prim. Qed.

Lemma sim_barrier T : sim eq (barrier T) (barrier T).
Proof.
  intros s s' H. unfold barrier.
  assert (Hp : populatedFunctions s = populatedFunctions s')
    by (apply (f_equal populatedFunctions) in H; exact H).
  rewrite Hp. destruct (Nat.eqb _ _); [apply sim_resolve; exact H|].
  split; [reflexivity | exact H].
Qed.

(** Logging, or not, makes no difference. *)
Lemma sim_log_any (m m' : M unit) :
  (forall s, m s = (Ok tt, s) \/ exists msg, m s = cli_log msg s) ->
  (forall s, m' s = (Ok tt, s) \/ exists msg, m' s = cli_log msg s) ->
  sim eq m m'.
Proof.
  intros Hm Hm' s s' H.
  destruct (Hm s) as [-> | (msg & ->)], (Hm' s') as [-> | (msg' & ->)];
    unfold cli_log; simpl; (split; [reflexivity|]);
    destruct s, s'; same_fields H; simpl in *; subst; reflexivity.
Qed.

Section Resized.

Variables W W' : world.
Variable T : plugin.
Hypothesis HW : resized W W'.

Lemma statSync_resized path :
  res_rel same_kind (statSync W path) (statSync W' path).
Proof.
  unfold statSync. destruct (path_of path) as [p|e]; simpl; [|reflexivity].
  destruct HW as (Hf & _). specialize (Hf p).
  destruct (files W p), (files W' p); simpl; auto.
Qed.

Lemma sim_checkSize pkg : sim eq (checkSize W pkg) (checkSize W' pkg).
Proof.
  unfold checkSize.
  apply (sim_bind eq eq); [apply sim_spy | intros _ _ _].
  apply (sim_bind same_kind eq); [apply sim_lift, statSync_resized | intros a b _].
  apply sim_log_any; intros s.
  - destruct (_ <? _)%N; [right; eexists; reflexivity | left; reflexivity].
  - destruct (_ <? _)%N; [right; eexists; reflexivity | left; reflexivity].
Qed.

Lemma sim_getPkg description funcName :
  sim eq (getPkg W T description funcName) (getPkg W' T description funcName).
Proof.
  unfold getPkg.
  apply (sim_bind eq eq); [apply sim_spy | intros _ _ _].
  apply (sim_bind eq eq); [apply sim_lift, res_rel_eq_refl | intros pkg ? <-].
  destruct (_ && _); [|apply sim_ret; reflexivity].
  apply (sim_bind eq eq); [apply sim_lift, res_rel_eq_refl | intros p ? <-].
  apply (sim_bind same_kind eq); [apply sim_lift, statSync_resized | intros a b Hk].
  destruct a, b; simpl in Hk; try contradiction; simpl.
  - apply sim_ret; reflexivity.
  - apply (sim_bind eq eq); [|intros; apply sim_throw].
    apply sim_log_any; intros s; right; eexists; reflexivity.
Qed.

Lemma sim_readFileSync path :
  sim (fun b b' => b = b') (readFileSync W path) (readFileSync W' path).
Proof.
  unfold readFileSync.
  apply (sim_bind eq eq); [apply sim_spy | intros _ _ _].
  apply (sim_bind eq eq); [apply sim_lift, res_rel_eq_refl | intros p ? <-].
  destruct HW as (Hf & _). specialize (Hf p).
  destruct (files W p) as [[sz|sz z]|], (files W' p) as [[sz'|sz' z']|];
    simpl in Hf; try contradiction; try apply sim_throw.
  subst z'. sim_prim.
Qed.

Lemma sim_loadZip data : sim eq (loadZip data) (loadZip data).
Proof.
  intros s s' H. unfold loadZip, JSZip_loadAsync, bind, spy, ret.
  destruct s, s'; same_fields H; simpl in *; subst.
  destruct (cache_get _ _); simpl; split; reflexivity.
Qed.

Lemma sim_getFileContent zipFile relativePath :
  sim eq (getFileContent W zipFile relativePath) (getFileContent W' zipFile relativePath).
Proof.
  unfold getFileContent.
  apply (sim_bind eq eq); [apply sim_spy | intros _ _ _].
  apply (sim_bind eq eq); [apply sim_readFileSync | intros data ? <-].
  apply (sim_bind eq eq); [apply sim_loadZip | intros loaded ? <-].
  apply sim_ret; reflexivity.
Qed.

Lemma sim_each_function description name :
  sim eq (each_function W T description name) (each_function W' T description name).
Proof.
  unfold each_function. destruct HW as (_ & _ & Hd & _).
  apply (sim_bind eq eq); [apply sim_getPkg | intros pkg ? <-].
  apply (sim_bind eq eq); [apply sim_checkSize | intros _ _ _].
  apply (sim_bind eq eq); [apply sim_lift, res_rel_eq_refl | intros handler ? <-].
  destruct (truthy handler).
  - apply (sim_bind eq eq); [apply sim_lift, res_rel_eq_refl | intros rt ? <-].
    rewrite Hd.
    apply (sim_bind eq eq); [apply sim_spy | intros _ _ _]. apply sim_spawn.
  - apply (sim_bind eq eq); [apply sim_push | intros _ _ _]. apply sim_barrier.
Qed.

Lemma sim_each fs : sim eq (each W T fs) (each W' T fs).
Proof.
  induction fs as [|[name description] fs IH]; simpl.
  - apply sim_ret; reflexivity.
  - apply (sim_bind eq eq); [apply sim_each_function | intros _ _ _; exact IH].
Qed.

Lemma sim_callback t : sim eq (callback W T t) (callback W' T t).
Proof.
  destruct HW as (_ & Hs & _).
  destruct t as [name d pkg depFile | name d pkg depFile opts | name d opts req |];
    unfold callback.
  - rewrite Hs. apply (sim_bind eq eq); [|intros v ? <-; apply sim_spawn].
    destruct (strategy_deploy W name d pkg) as [v|e]; [apply sim_ret; reflexivity|].
    apply (sim_bind eq eq); [apply sim_reject | intros; apply sim_ret; reflexivity].
  - apply (sim_bind eq eq); [apply sim_getFileContent | intros v ? <-; apply sim_spawn].
  - apply (sim_bind eq eq); [apply sim_lift, res_rel_eq_refl | intros f ? <-].
    apply (sim_bind eq eq); [apply sim_push | intros; apply sim_barrier].
  - sim_prim.
Qed.

Lemma settle_but_log r r' :
  res_rel eq (fst r) (fst r') ->
  but_log (snd r) = but_log (snd r') ->
  but_log (settle r) = but_log (settle r').
Proof.
  destruct r as [[[]|e] s], r' as [[[]|e'] s']; simpl; try contradiction; auto.
  intros <- H. destruct s, s'; same_fields H; simpl in *; subst; reflexivity.
Qed.

Lemma step_but_log i s s' :
  but_log s = but_log s' -> but_log (step W T i s) = but_log (step W' T i s').
Proof.
  intros H. unfold step.
  assert (Ht : tasks s = tasks s') by (apply (f_equal tasks) in H; exact H).
  rewrite <- Ht. destruct (nth_error (tasks s) i) as [t|]; [|exact H].
  assert (H0 : but_log (set_tasks (remove_nth i (tasks s)) s) =
               but_log (set_tasks (remove_nth i (tasks s)) s')).
  { destruct s, s'; same_fields H; simpl in *; subst; reflexivity. }
  destruct (sim_callback t _ _ H0) as [Hr Hs]. now apply settle_but_log.
Qed.

(** All a deployment does, and all a caller or [deploy] sees of it, is the
    same whatever the sizes of the artifacts: only the log differs. *)
Lemma deployment_resized schedule :
  but_log (deployment W' T schedule) = but_log (deployment W T schedule).
Proof.
  unfold deployment.
  assert (H : but_log (deployFunction W T initial) = but_log (deployFunction W' T initial)).
  { unfold deployFunction. destruct HW as (_ & _ & _ & ->).
    destruct (config_init W); [|reflexivity].
    destruct (sim_each (service_functions T) initial initial eq_refl) as [Hr Hs].
    now apply settle_but_log. }
  revert H. generalize (deployFunction W T initial) (deployFunction W' T initial).
  induction schedule as [|i schedule IH]; intros s s' H; simpl; [now symmetry|].
  apply IH, step_but_log, H.
Qed.

End Resized.

(** C8: [checkSize] logs its warning exactly when the artifact is larger
    than 1,048,576 bytes (1,048,577 warns, 1,048,576 does not); the warning
    is the fixed sentence around a decimal numeral that reads as the size in
    megabytes rounded to the nearest integer (1MB for 1,048,577 bytes, 2MB
    for a megabyte and a half, 12MB for twelve megabytes); with or without
    the warning the call returns normally, and the whole deployment goes the
    same way whatever the sizes: two disks that differ only in file sizes
    give, under every schedule, states that differ only in the log. *)
Theorem checkSize_threshold :
  (forall (W : world) (pkg : value) (stat : node) (s : state),
     statSync W pkg = Ok stat ->
     let size := node_size stat in
     let mb := round_div size oneMB in
     exists s',
       checkSize W pkg s = (Ok tt, s') /\
       ((1048576 < size)%N ->
        exists digits,
          read_decimal digits = Some mb /\
          log s' = (log s ++ [warning_naming digits])%list) /\
       ((size <= 1048576)%N -> log s' = log s) /\
       (2 * mb * 1048576 <= 2 * size + 1048576 < 2 * (mb + 1) * 1048576)%N /\
       same_core s s') /\
  decimal (round_div 1048577 oneMB) = "1" /\
  log (snd (checkSize Demo.cluster (VStr "/art/big.zip") initial)) =
    ["WARNING! Function zip file is 1MB. The maximum size allowed is 1MB: please use package.exclude directives to include only the required files"] /\
  size_warning 1572864 = warning_naming "2" /\
  size_warning 12582912 = warning_naming "12" /\
  (forall (W W' : world) (T : plugin) (schedule : list nat),
     resized W W' ->
     but_log (deployment W' T schedule) = but_log (deployment W T schedule)).
Proof.
  split; [exact checkSize_warns|]. do 4 (split; [reflexivity|]).
  intros W W' T schedule H. now apply deployment_resized.
Qed.

Lemma slim_resized : resized Demo.cluster Demo.slim.
Proof.
  split; [|repeat split].
  intros p. unfold Demo.slim, Demo.cluster, Demo.disk. simpl.
  repeat (destruct (String.eqb p _); [simpl; auto|]).
  exact I.
Defined.

Lemma checkSize_threshold_witness :
  statSync Demo.cluster (VStr "/art/big.zip")
    = Ok (RegularFile 1048577 (Some Demo.zip)) /\
  (exists s' digits,
     checkSize Demo.cluster (VStr "/art/big.zip") initial = (Ok tt, s') /\
     read_decimal digits = Some 1%N /\
     log s' = [warning_naming digits]) /\
  resized Demo.cluster Demo.slim /\
  but_log (deployment Demo.slim Demo.oversized [0; 0; 0; 0]) =
  but_log (deployment Demo.cluster Demo.oversized [0; 0; 0; 0]).
Proof.
  destruct checkSize_threshold as (Hcall & _ & _ & _ & _ & Hrun).
  split; [reflexivity|]. split; [|split].
  - destruct (Hcall Demo.cluster (VStr "/art/big.zip")
                (RegularFile 1048577 (Some Demo.zip)) initial eq_refl)
      as (s' & Hs' & Hwarn & _).
    destruct Hwarn as (digits & Hread & Hlog); [reflexivity|].
    exists s', digits. split; [exact Hs'|]. split; [exact Hread | exact Hlog].
  - exact slim_resized.
  - apply Hrun. exact slim_resized.
Defined.

(** ** The barrier *)

Section Barrier.

Variable W : world.
Variable T : plugin.

Lemma run_idle schedule s : tasks s = [] -> run W T schedule s = s.
Proof.
  intros H. induction schedule as [|i schedule IH]; simpl; [reflexivity|].
  assert (Hs : step W T i s = s)
    by (unfold step; rewrite H; destruct i; reflexivity).
  rewrite Hs. exact IH.
Qed.

Lemma branch_waiting_not_fulfilled i t s :
  barrier_inv (total T) 0 s ->
  nth_error (tasks s) i = Some t ->
  is_branch t = true ->
  outer s <> Fulfilled /\ submitted s = [].
Proof.
  intros (H1 & H2 & H3) Hi Ht.
  pose proof (filter_remove_nth is_branch _ _ _ Hi) as Fb. rewrite Ht in Fb.
  unfold branches in H1.
  destruct (outer s); [split; [discriminate | apply H3] | | split; [discriminate | apply H3]].
  destruct H3 as [H3 _]. lia.
Qed.

End Barrier.

(** C10: with no declared function nothing is ever appended, so the length
    check never runs: no branch is launched, the promise stays pending under
    every schedule and [deploy] is never called. *)
Theorem empty_map_never_settles (W : world) (T : plugin) (schedule : list nat) :
  service_functions T = [] ->
  let s := deployment W T schedule in
  outer s = Pending /\ submitted s = [] /\ tasks s = [] /\
  populatedFunctions s = [] /\ calls s = [].
Proof.
  intros H. unfold deployment, deployFunction. rewrite H.
  destruct (config_init W) as [[]|e]; simpl; rewrite run_idle; repeat split.
Qed.

Lemma empty_map_never_settles_witness :
  service_functions Demo.no_functions = [] /\
  outer (deployment Demo.cluster Demo.no_functions [0; 1; 0]) = Pending /\
  submitted (deployment Demo.cluster Demo.no_functions [0; 1; 0]) = [].
Proof.
  split; [reflexivity|].
  destruct (empty_map_never_settles Demo.cluster Demo.no_functions [0; 1; 0] eq_refl)
    as (Ho & Hs & _).
  split; assumption.
Defined.

(** C2, as worded, fails on the empty function map. *)
Lemma empty_map_not_submitted : ~ submits_exactly_once Demo.cluster Demo.no_functions.
Proof.
  intros H. destruct (H [] eq_refl) as (batch & Hb & _). discriminate Hb.
Qed.

(** C2: under every schedule [deploy] is called at most once, and only with
    a collection of exactly as many entries as there are declared functions;
    when there is at least one function, every branch has completed, no
    callback threw and no strategy deploy failed, it has been called exactly
    once. *)
Theorem submission_barrier (W : world) (T : plugin) (schedule : list nat) :
  let s := deployment W T schedule in
  (submitted s = [] \/
   (submitted s = [populatedFunctions s] /\
    List.length (populatedFunctions s) = total T)) /\
  (0 < total T ->
   tasks s = [] ->
   unhandled s = [] ->
   (forall e, outer s <> Rejected e) ->
   submitted s = [populatedFunctions s] /\
   List.length (populatedFunctions s) = total T).
Proof.
  intros s.
  destruct (deployment_inv W T schedule) as [(H1 & H2 & H3) HP]. fold s in H1, H2, H3, HP.
  split.
  - destruct (outer s); [left; apply H3 | | left; apply H3].
    destruct H3 as [Hl [[Hs _]|[Hs _]]]; [left | right]; auto.
  - intros Hn Ht Hu Hr. specialize (HP Hu).
    unfold branches, submits in *. rewrite Ht in *. simpl in *.
    destruct (outer s) eqn:Ho.
    + assert (total T = 0) by (apply H2; [reflexivity | lia]). lia.
    + destruct H3 as [Hl [[_ Hs]|[Hs _]]]; [discriminate | auto].
    + exfalso. exact (Hr _ eq_refl).
Qed.

Lemma submission_barrier_witness :
  let s := deployment Demo.cluster Demo.mixed [1; 0; 1; 0; 0; 0; 0] in
  0 < total Demo.mixed /\ tasks s = [] /\ unhandled s = [] /\
  submitted s = [populatedFunctions s] /\
  List.length (populatedFunctions s) = 3.
Proof.
  set (schedule := [1; 0; 1; 0; 0; 0; 0]).
  assert (Hn : 0 < total Demo.mixed) by (vm_compute; lia).
  assert (Ht : tasks (deployment Demo.cluster Demo.mixed schedule) = []) by reflexivity.
  assert (Hu : unhandled (deployment Demo.cluster Demo.mixed schedule) = [])
    by reflexivity.
  assert (Hr : forall e, outer (deployment Demo.cluster Demo.mixed schedule) <> Rejected e)
    by (intros e; vm_compute; discriminate).
  split; [exact Hn|]. split; [exact Ht|]. split; [exact Hu|].
  exact (proj2 (submission_barrier Demo.cluster Demo.mixed schedule) Hn Ht Hu Hr).
Defined.

(** C4: when the strategy deploy of a function fails, [deploy] has not been
    called before, the outer promise is rejected with the first such error,
    and under every continuation that rejection stays and [deploy] is never
    called, although the failing branch goes on to populate its function. *)
Theorem strategy_failure_aborts
  (W : world) (T : plugin) (schedule : list nat) (i : nat)
  (name : string) (d pkg : value) (depFile : string) (e : error) (later : list nat) :
  let s := deployment W T schedule in
  nth_error (tasks s) i = Some (StrategySettled name d pkg depFile) ->
  strategy_deploy W name d pkg = Throw e ->
  submitted s = [] /\
  outer (step W T i s) =
    Rejected (match outer s with Rejected first => first | _ => e end) /\
  outer (run W T later (step W T i s)) = outer (step W T i s) /\
  submitted (run W T later (step W T i s)) = [].
Proof.
  intros s Hi He.
  pose proof (deployment_inv W T schedule) as Hinv. fold s in Hinv.
  clearbody s.
  destruct (branch_waiting_not_fulfilled T i _ s (proj1 Hinv) Hi eq_refl) as [Hnf Hsub].
  assert (Hstep : outer (step W T i s) =
                  Rejected (match outer s with Rejected first => first | _ => e end)).
  { unfold step. rewrite Hi. unfold callback, bind. rewrite He.
    unfold reject. simpl.
    destruct (outer s) eqn:Ho; simpl; rewrite ?Ho; congruence. }
  assert (Hout : outer (run W T later (step W T i s)) = outer (step W T i s)).
  { apply run_outer_settled. rewrite Hstep. discriminate. }
  repeat split; try assumption.
  destruct (run_inv W T later _ (step_inv W T i s Hinv)) as [(_ & _ & H3) _].
  rewrite Hout, Hstep in H3. apply H3.
Qed.

Lemma strategy_failure_aborts_witness :
  let s := deployment Demo.cluster Demo.with_broken [0] in
  nth_error (tasks s) 0 = Some (StrategySettled "broken" Demo.hello (VStr "/art/svc.zip") "package.json") /\
  strategy_deploy Demo.cluster "broken" Demo.hello (VStr "/art/svc.zip") = Throw Demo.upload_failed /\
  outer (run Demo.cluster Demo.with_broken [0; 0; 0; 0] (step Demo.cluster Demo.with_broken 0 s))
    = Rejected Demo.upload_failed /\
  submitted (run Demo.cluster Demo.with_broken [0; 0; 0; 0] (step Demo.cluster Demo.with_broken 0 s))
    = [].
Proof.
  assert (Hi : nth_error (tasks (deployment Demo.cluster Demo.with_broken [0])) 0 =
               Some (StrategySettled "broken" Demo.hello (VStr "/art/svc.zip") "package.json"))
    by reflexivity.
  assert (He : strategy_deploy Demo.cluster "broken" Demo.hello (VStr "/art/svc.zip") =
               Throw Demo.upload_failed) by reflexivity.
  destruct (strategy_failure_aborts Demo.cluster Demo.with_broken [0] 0
              "broken" Demo.hello (VStr "/art/svc.zip") "package.json"
              Demo.upload_failed [0; 0; 0; 0] Hi He) as (_ & Hstep & Hout & Hsub).
  split; [exact Hi|]. split; [exact He|].
  split; [rewrite Hout; exact Hstep | exact Hsub].
Defined.

(** ** Reading the archive: the cache never answers *)

Lemma cache_get_fresh id c :
  Forall (fun kv : nat * res archive => fst kv < id) c -> cache_get id c = None.
Proof.
  induction 1 as [|[id' p] c Hlt _ IH]; simpl in *; [reflexivity|].
  destruct (Nat.eqb_spec id id'); [lia | exact IH].
Qed.

(** Every read of an archive file decodes it: the buffer just read is not a
    key of the cache. *)
Lemma getFileContent_decodes W zipFile size z relativePath s :
  cache_fresh s ->
  files W zipFile = Some (RegularFile size z) ->
  let s' := snd (getFileContent W (VStr zipFile) relativePath s) in
  calls s' =
    (calls s ++ [GetFileContent (VStr zipFile) relativePath;
                 ReadFileSync (VStr zipFile); LoadAsync (next_buffer s)])%list /\
  next_buffer s' = S (next_buffer s) /\
  cache_fresh s'.
Proof.
  intros Hfresh Hfile.
  unfold getFileContent, readFileSync, loadZip, JSZip_loadAsync, bind, spy, lift, ret.
  simpl. rewrite Hfile. simpl.
  rewrite cache_get_fresh by exact Hfresh. simpl.
  rewrite <- !app_assoc. simpl.
  repeat split.
  unfold cache_fresh in *. simpl. constructor; simpl; [lia|].
  eapply Forall_impl; [|exact Hfresh]. simpl. intros kv Hkv. lia.
Qed.



Lemma keeps_ret {A} (a : A) : keeps_buffers (ret a).
Proof. intros s. reflexivity. Qed.

Lemma keeps_throw {A} e : keeps_buffers (@throw A e).
Proof. intros s. reflexivity. Qed.

Lemma keeps_lift {A} (r : res A) : keeps_buffers (lift r).
Proof. intros s. reflexivity. Qed.

Lemma keeps_spy c : keeps_buffers (spy c).
Proof. intros s. reflexivity. Qed.

Lemma keeps_cli_log msg : keeps_buffers (cli_log msg).
Proof. intros s. reflexivity. Qed.

Lemma keeps_spawn t : keeps_buffers (spawn t).
Proof. intros s. reflexivity. Qed.

Lemma keeps_push f : keeps_buffers (push f).
Proof. intros s. reflexivity. Qed.

Lemma keeps_reject e : keeps_buffers (reject e).
Proof. intros s. unfold reject. destruct (outer s); reflexivity. Qed.

Lemma keeps_barrier T : keeps_buffers (barrier T).
Proof.
  intros s. unfold barrier, resolve.
  destruct (Nat.eqb _ _); [destruct (outer s)|]; reflexivity.
Qed.

Lemma keeps_bind {A B} (m : M A) (k : A -> M B) :
  keeps_buffers m -> (forall a, keeps_buffers (k a)) -> keeps_buffers (bind m k).
Proof.
  intros Hm Hk s. unfold bind. specialize (Hm s).
  destruct (m s) as [[a|e] s1]; simpl in *; [|exact Hm].
  now rewrite Hk.
Qed.

Lemma keeps_if {A} (b : bool) (m1 m2 : M A) :
  keeps_buffers m1 -> keeps_buffers m2 -> keeps_buffers (if b then m1 else m2).
Proof. destruct b; auto. Qed.

Create HintDb keeps.
#[local] Hint Resolve keeps_ret keeps_throw keeps_lift keeps_spy keeps_cli_log
  keeps_spawn keeps_push keeps_reject keeps_barrier : keeps.

Ltac keeps_tac :=
  repeat first
    [ solve [auto with keeps]
    | apply keeps_if
    | apply keeps_bind; [| intro] ].

Lemma keeps_checkSize W pkg : keeps_buffers (checkSize W pkg).
Proof. unfold checkSize. keeps_tac. Qed.

Lemma keeps_getPkg W T description funcName :
  keeps_buffers (getPkg W T description funcName).
Proof. unfold getPkg. keeps_tac. Qed.

#[local] Hint Resolve keeps_checkSize keeps_getPkg : keeps.

Lemma keeps_each_function W T description name :
  keeps_buffers (each_function W T description name).
Proof. unfold each_function. keeps_tac. Qed.

#[local] Hint Resolve keeps_each_function : keeps.

Lemma keeps_each W T fs : keeps_buffers (each W T fs).
Proof.
  induction fs as [|[name description] fs IH]; simpl; keeps_tac.
Qed.

Lemma cache_fresh_buffers s s' :
  buffers s' = buffers s -> cache_fresh s -> cache_fresh s'.
Proof.
  unfold buffers, cache_fresh. intros H. injection H as -> ->. auto.
Qed.

Lemma getFileContent_fresh W zipFile relativePath s :
  cache_fresh s -> cache_fresh (snd (getFileContent W zipFile relativePath s)).
Proof.
  intros Hfresh.
  unfold getFileContent, readFileSync, bind, spy, lift, ret, throw. simpl.
  destruct (path_of zipFile) as [p|e]; simpl; [|exact Hfresh].
  destruct (files W p) as [[size|size z]|]; simpl; try exact Hfresh.
  unfold loadZip, JSZip_loadAsync, bind, spy, ret. simpl.
  rewrite cache_get_fresh by exact Hfresh. simpl.
  unfold cache_fresh in *. simpl. constructor; simpl; [lia|].
  eapply Forall_impl; [|exact Hfresh]. simpl. intros kv Hkv. lia.
Qed.

Lemma callback_fresh W T t s :
  cache_fresh s -> cache_fresh (snd (callback W T t s)).
Proof.
  intros Hfresh.
  destruct t as [name d pkg depFile | name d pkg depFile opts | name d opts req |].
  - eapply cache_fresh_buffers; [|exact Hfresh].
    apply (keeps_bind _ _); [destruct (strategy_deploy W name d pkg)|intro];
      keeps_tac.
  - unfold callback, bind.
    pose proof (getFileContent_fresh W pkg depFile s Hfresh) as H.
    destruct (getFileContent W pkg depFile s) as [[settled|e] s1]; exact H.
  - eapply cache_fresh_buffers; [|exact Hfresh].
    assert (K : keeps_buffers (callback W T (RequirementsThen name d opts req)))
      by (unfold callback; keeps_tac).
    apply K.
  - exact Hfresh.
Qed.

Lemma settle_fresh r : cache_fresh (snd r) -> cache_fresh (settle r).
Proof. destruct r as [[[]|e] s]; auto. Qed.

Lemma step_fresh W T i s : cache_fresh s -> cache_fresh (step W T i s).
Proof.
  intros H. unfold step. destruct (nth_error (tasks s) i) as [t|]; [|exact H].
  apply settle_fresh, callback_fresh. exact H.
Qed.

(** In every state a deployment reaches, the cache holds only buffers that
    were handed out before: the next read cannot find its buffer there. *)
Lemma deployment_fresh W T schedule : cache_fresh (deployment W T schedule).
Proof.
  unfold deployment.
  assert (H : cache_fresh (deployFunction W T initial)).
  { unfold deployFunction. destruct (config_init W); [|constructor].
    apply settle_fresh. eapply cache_fresh_buffers; [apply keeps_each | constructor]. }
  revert H. generalize (deployFunction W T initial).
  induction schedule as [|i schedule IH]; intros s H; simpl; [exact H|].
  apply IH, step_fresh, H.
Qed.

(** C3: in every state a deployment reaches, two reads of one archive, for
    whatever entries, read the file twice and decode it twice: each
    [readFileSync] returns a new buffer and the memoized [loadAsync] is keyed
    by that buffer, not by the path. So it is for two reads of the demo
    archive and for two functions that share the service artifact. *)
Theorem loadZip_decodes_every_read :
  (forall (W : world) (T : plugin) (schedule : list nat)
          (zipFile : string) (size : N) (z : option archive) (entry1 entry2 : string),
     files W zipFile = Some (RegularFile size z) ->
     let s := deployment W T schedule in
     let s1 := snd (getFileContent W (VStr zipFile) entry1 s) in
     let s2 := snd (getFileContent W (VStr zipFile) entry2 s1) in
     calls s2 =
       (calls s ++
        [GetFileContent (VStr zipFile) entry1;
         ReadFileSync (VStr zipFile); LoadAsync (next_buffer s);
         GetFileContent (VStr zipFile) entry2;
         ReadFileSync (VStr zipFile); LoadAsync (S (next_buffer s))])%list) /\
  (let s1 := snd (getFileContent Demo.cluster (VStr "/art/svc.zip") "package.json" initial) in
   let s2 := snd (getFileContent Demo.cluster (VStr "/art/svc.zip") "requirements.txt" s1) in
   calls s2 =
     [GetFileContent (VStr "/art/svc.zip") "package.json";
      ReadFileSync (VStr "/art/svc.zip"); LoadAsync 0;
      GetFileContent (VStr "/art/svc.zip") "requirements.txt";
      ReadFileSync (VStr "/art/svc.zip"); LoadAsync 1]) /\
  filter (fun c => match c with LoadAsync _ => true | _ => false end)
         (calls (deployment Demo.cluster Demo.mixed [0; 0; 0; 0; 0; 0; 0]))
    = [LoadAsync 0; LoadAsync 1].
Proof.
  split; [|split; reflexivity].
  intros W T schedule zipFile size z entry1 entry2 Hfile s s1 s2.
  pose proof (deployment_fresh W T schedule) as Hfresh. fold s in Hfresh.
  destruct (getFileContent_decodes W zipFile size z entry1 s Hfresh Hfile)
    as (C1 & N1 & F1). fold s1 in C1, N1, F1.
  destruct (getFileContent_decodes W zipFile size z entry2 s1 F1 Hfile)
    as (C2 & _). fold s2 in C2.
  rewrite C2, C1, N1, <- app_assoc. reflexivity.
Qed.


(** ** A package path that is not a directory *)

Lemma getPkg_not_a_directory W T description funcName p size z s :
  field "package" (options T) = VStr p ->
  p <> "" ->
  truthy (field "individually" (service_package T)) = true ->
  files W p = Some (RegularFile size z) ->
  getPkg W T description funcName s =
  (Throw (Error errMsg),
   set_log (log s ++ [errMsg]) (set_calls (calls s ++ [GetPkg funcName]) s)).
Proof.
  intros Hp Hne Hi Hf.
  unfold getPkg, bind, spy, lift, ret. simpl.
  rewrite Hp, Hi. unfold or_else at 1. simpl.
  destruct (String.eqb_spec p "") as [|_]; [contradiction|]. simpl.
  unfold statSync. simpl. rewrite Hf. reflexivity.
Qed.

(** The throw leaves [_.each] at the first function; nothing was launched
    and nothing calls [reject], so the state never changes again. *)
Lemma invalid_layout_state W T p size z name d rest schedule :
  config_init W = Ok tt ->
  field "package" (options T) = VStr p ->
  p <> "" ->
  truthy (field "individually" (service_package T)) = true ->
  files W p = Some (RegularFile size z) ->
  service_functions T = (name, d) :: rest ->
  deployment W T schedule =
  set_unhandled [Error errMsg] (set_log [errMsg] (set_calls [GetPkg name] initial)).
Proof.
  intros Hc Hp Hne Hi Hf Hfs.
  unfold deployment, deployFunction. rewrite Hc, Hfs. simpl.
  unfold each_function, bind.
  rewrite (getPkg_not_a_directory W T d name p size z initial Hp Hne Hi Hf).
  simpl. apply run_idle. reflexivity.
Qed.

(** C5: [--package] naming a regular file while [package.individually] is
    set: [getPkg] logs its message and throws at the first function,
    [deploy] is never called, and the error reaches nobody: it is thrown
    inside the callback of [kubelessConfig.init().then], whose promise has no
    handler, so the promise returned to the caller stays pending under every
    schedule. So it is for [--package /art/svc.zip]. *)
Theorem invalid_layout_never_rejects :
  (forall (W : world) (T : plugin) (p : string) (size : N) (z : option archive)
          (name : string) (d : value) (rest : list (string * value))
          (schedule : list nat),
     config_init W = Ok tt ->
     field "package" (options T) = VStr p ->
     p <> "" ->
     truthy (field "individually" (service_package T)) = true ->
     files W p = Some (RegularFile size z) ->
     service_functions T = (name, d) :: rest ->
     let s := deployment W T schedule in
     fst (getPkg W T d name initial) = Throw (Error errMsg) /\
     log s = [errMsg] /\
     unhandled s = [Error errMsg] /\
     submitted s = [] /\
     outer s = Pending) /\
  (forall schedule : list nat,
     let s := deployment Demo.cluster (Demo.individually "/art/svc.zip") schedule in
     log s = [errMsg] /\
     unhandled s = [Error errMsg] /\
     submitted s = [] /\
     outer s = Pending).
Proof.
  split.
  - intros W T p size z name d rest schedule Hc Hp Hne Hi Hf Hfs s. unfold s.
    rewrite (invalid_layout_state W T p size z name d rest schedule Hc Hp Hne Hi Hf Hfs).
    rewrite (getPkg_not_a_directory W T d name p size z initial Hp Hne Hi Hf).
    repeat split.
  - intros schedule s. unfold s.
    rewrite (invalid_layout_state Demo.cluster (Demo.individually "/art/svc.zip")
               "/art/svc.zip" 2048%N (Some Demo.zip) "foo" Demo.hello [] schedule);
      try reflexivity; [|discriminate].
    repeat split.
Qed.

(** ** Functions without a handler *)

(** C1, as worded, fails: the artifact of a function without a handler is
    resolved and its size checked. *)
Lemma meta_is_resolved :
  ~ populates_without_resolution Demo.cluster Demo.only_meta Demo.meta "meta" initial.
Proof.
  intros [_ H]. vm_compute in H. discriminate H.
Qed.

(** C1: for a declaration without a (truthy) [handler], [getPkg] and
    [checkSize] are called as for every function; when both return, the
    record appended is the declaration with [id] set to the name and nothing
    else, no branch is launched, and neither the strategy nor the archive
    reader is called. *)
Theorem no_handler_population
  (W : world) (T : plugin) (fields : props) (name : string)
  (s s1 s2 : state) (pkg : value) :
  NoDup (List.map fst fields) ->
  truthy (field "handler" fields) = false ->
  getPkg W T (VObj fields) name s = (Ok pkg, s1) ->
  checkSize W pkg s1 = (Ok tt, s2) ->
  exists s',
    each_function W T (VObj fields) name s = (Ok tt, s') /\
    populatedFunctions s' =
      (populatedFunctions s ++ [VObj (set_prop "id" (VStr name) fields)])%list /\
    (forall k, assoc k (set_prop "id" (VStr name) fields) =
               if String.eqb k "id" then Some (VStr name) else assoc k fields) /\
    calls s' = (calls s ++ [GetPkg name; CheckSize pkg])%list /\
    filter is_branch (tasks s') = filter is_branch (tasks s) /\
    unhandled s' = unhandled s.
Proof.
  intros Hnd Hh Hg Hc.
  pose proof (quiet_getPkg W T (VObj fields) name s) as Q1.
  pose proof (getPkg_calls W T (VObj fields) name s) as C1.
  pose proof (quiet_checkSize W pkg s1) as Q2.
  pose proof (checkSize_calls W pkg s1) as C2.
  rewrite Hg in Q1, C1. rewrite Hc in Q2, C2. simpl in Q1, C1, Q2, C2.
  destruct Q1 as (P1 & O1 & T1 & S1 & U1). destruct Q2 as (P2 & O2 & T2 & S2 & U2).
  unfold each_function, bind. rewrite Hg, Hc. unfold lift. simpl.
  fold (field "handler" fields). rewrite Hh.
  rewrite (assign_copy fields Hnd).
  unfold Lodash.assign1. simpl.
  set (f := VObj (set_prop "id" (VStr name) fields)).
  exists (snd (barrier T (snd (push f s2)))).
  pose proof (barrier_ok T (snd (push f s2))) as Hok.
  split; [| split; [| split; [| split; [| split]]]].
  - unfold push in *. simpl in *.
    destruct (barrier T _) as [[[]|e] s3]; simpl in *; [reflexivity | discriminate].
  - unfold barrier, resolve, push. simpl.
    destruct (Nat.eqb _ _); [destruct (outer s2)|]; simpl; congruence.
  - intros k. destruct (String.eqb_spec k "id") as [->|Hk].
    + apply assoc_set_prop_same.
    + now apply assoc_set_prop_other.
  - unfold barrier, resolve, push. simpl.
    destruct (Nat.eqb _ _); [destruct (outer s2)|]; simpl;
      rewrite C2, C1, <- app_assoc; reflexivity.
  - unfold barrier, resolve, push. simpl.
    destruct (Nat.eqb _ _); [destruct (outer s2)|]; simpl;
      rewrite ?filter_app, ?app_nil_r; congruence.
  - unfold barrier, resolve, push. simpl.
    destruct (Nat.eqb _ _); [destruct (outer s2)|]; simpl; congruence.
Qed.

Lemma no_handler_population_witness :
  exists s',
    each_function Demo.cluster Demo.only_meta (VObj Demo.meta) "meta" initial = (Ok tt, s') /\
    populatedFunctions s' =
      [VObj [("description", VStr "metadata only"); ("id", VStr "meta")]] /\
    calls s' = [GetPkg "meta"; CheckSize (VStr "/art/svc.zip")].
Proof.
  assert (Hnd : NoDup (List.map fst Demo.meta)).
  { repeat constructor; simpl; intuition discriminate. }
  destruct (no_handler_population Demo.cluster Demo.only_meta Demo.meta "meta"
              initial _ _ (VStr "/art/svc.zip") Hnd eq_refl eq_refl eq_refl)
    as (s' & Hrun & Hpop & _ & Hcalls & _).
  exists s'. split; [exact Hrun|]. split; [exact Hpop | exact Hcalls].
Defined.

(** ** A missing dependency manifest *)

Lemma normalizeEvent_total event :
  nullish event = false -> exists r, normalizeEvent event = Ok r.
Proof.
  intros H. unfold normalizeEvent.
  assert (Hp : exists payload, prop (key_name (first_key event)) event = Ok payload)
    by (destruct event; try discriminate; eexists; reflexivity).
  destruct Hp as (payload & ->). simpl.
  destruct (is_type _ "trigger"); [eexists; reflexivity|].
  destruct (is_type _ "schedule"); eexists; reflexivity.
Qed.

Lemma map_list_normalizeEvent_total events :
  Forall (fun event => nullish event = false) events ->
  exists rs, Lodash.map_list normalizeEvent events = Ok rs.
Proof.
  induction 1 as [|event events He _ (rs & IH)]; simpl.
  - eexists; reflexivity.
  - destruct (normalizeEvent_total event He) as (r & ->). simpl. rewrite IH.
    eexists; reflexivity.
Qed.

(** The record of a function with a handler, for well-formed events. *)
Lemma populate_total T name fields deployOptions requirementsContent :
  Forall (fun event => nullish event = false) (declared_events fields) ->
  exists f,
    populate T name (VObj fields) deployOptions requirementsContent = Ok (VObj f) /\
    assoc "id" f = Some (VStr name) /\
    assoc "deps" f = Some requirementsContent.
Proof.
  intros He. unfold populate. simpl.
  fold (field "image" fields). fold (field "events" fields).
  destruct (or_else (field "image" fields) _) as [image|e] eqn:Hi;
    [| unfold or_else in Hi; destruct (truthy _); discriminate].
  simpl. unfold normalizeEvents, Lodash.map.
  destruct (map_list_normalizeEvent_total _ He) as (rs & Hrs).
  unfold declared_events in Hrs. rewrite Hrs. simpl.
  eexists. split; [reflexivity|].
  split; rewrite assoc_assign1; try reflexivity;
    repeat constructor; simpl; intuition discriminate.
Qed.

(** How the branch of a function with a handler gets to the archive: the
    iteratee calls the strategy and waits; when that promise settles, either
    way, the callback that reads the dependency file is queued. *)
Lemma handler_branch_launched W T fields name s s1 s2 pkg :
  truthy (field "handler" fields) = true ->
  getPkg W T (VObj fields) name s = (Ok pkg, s1) ->
  checkSize W pkg s1 = (Ok tt, s2) ->
  exists depFile,
    each_function W T (VObj fields) name s =
    (Ok tt,
     set_tasks (tasks s2 ++ [StrategySettled name (VObj fields) pkg depFile])
       (set_calls (calls s2 ++ [StrategyDeploy name pkg]) s2)).
Proof.
  intros Hh Hg Hc. unfold each_function, bind. rewrite Hg, Hc. unfold lift. simpl.
  fold (field "handler" fields). rewrite Hh.
  fold (field "runtime" fields).
  unfold or_else. destruct (truthy (field "runtime" fields)); simpl;
    eexists; reflexivity.
Qed.

Lemma strategy_settled_step W T name d pkg depFile i s :
  nth_error (tasks s) i = Some (StrategySettled name d pkg depFile) ->
  exists deployOptions,
    tasks (step W T i s) =
    (remove_nth i (tasks s) ++
     [DeployOptionsThen name d pkg depFile deployOptions])%list /\
    unhandled (step W T i s) = unhandled s /\
    populatedFunctions (step W T i s) = populatedFunctions s.
Proof.
  intros Hi. unfold step. rewrite Hi. unfold callback, bind.
  destruct (strategy_deploy W name d pkg) as [v|e]; simpl.
  - exists v. repeat split.
  - exists VUndef. unfold reject. simpl. destruct (outer s); simpl; repeat split.
Qed.

(** C9: in the branch of a function with a handler and well-formed events,
    when the artifact is not a zip archive or has no entry at the dependency
    file's path, the callback that reads it queues its continuation with
    [undefined] and neither rejects nor throws; that continuation, whenever
    it runs, appends the function with [deps] undefined, again without
    throwing and without rejecting the deployment. *)
Theorem missing_manifest_recovered
  (W : world) (T : plugin) (name : string) (fields : props)
  (pkg depFile : string) (deployOptions : value) (size : N) (z : option archive)
  (schedule : list nat) (i : nat) :
  let s := deployment W T schedule in
  truthy (field "handler" fields) = true ->
  Forall (fun event => nullish event = false) (declared_events fields) ->
  files W pkg = Some (RegularFile size z) ->
  match z with
  | Some zip => find (fun e => String.eqb depFile (fst e)) zip = None
  | None => True
  end ->
  nth_error (tasks s) i =
    Some (DeployOptionsThen name (VObj fields) (VStr pkg) depFile deployOptions) ->
  let s1 := step W T i s in
  tasks s1 =
    (remove_nth i (tasks s) ++
     [RequirementsThen name (VObj fields) deployOptions VUndef])%list /\
  outer s1 = outer s /\
  unhandled s1 = unhandled s /\
  populatedFunctions s1 = populatedFunctions s /\
  forall s2 j,
    nth_error (tasks s2) j =
      Some (RequirementsThen name (VObj fields) deployOptions VUndef) ->
    let s3 := step W T j s2 in
    exists f,
      populatedFunctions s3 = (populatedFunctions s2 ++ [f])%list /\
      prop "id" f = Ok (VStr name) /\
      prop "deps" f = Ok VUndef /\
      unhandled s3 = unhandled s2 /\
      (forall e, outer s3 = Rejected e -> outer s2 = Rejected e).
Proof.
  intros s _ He Hf Hz Hi s1.
  pose proof (deployment_fresh W T schedule) as Hfresh. fold s in Hfresh.
  clearbody s.
  assert (Hstep : s1 =
    set_tasks (remove_nth i (tasks s) ++
               [RequirementsThen name (VObj fields) deployOptions VUndef])
      (snd (getFileContent W (VStr pkg) depFile
              (set_tasks (remove_nth i (tasks s)) s)))).
  { unfold s1, step. rewrite Hi. unfold callback, bind.
    pose proof (quiet_getFileContent W (VStr pkg) depFile
                  (set_tasks (remove_nth i (tasks s)) s)) as (_ & _ & Q & _).
    revert Q.
    unfold getFileContent, readFileSync, loadZip, JSZip_loadAsync, bind, spy, lift, ret.
    simpl. rewrite Hf. simpl.
    (* the buffer is new: the settlement is that of [loadAsync] *)
    rewrite cache_get_fresh by exact Hfresh. simpl.
    destruct z as [zip|]; simpl.
    - unfold file_async_string. rewrite Hz. simpl. reflexivity.
    - reflexivity. }
  pose proof (quiet_getFileContent W (VStr pkg) depFile
                (set_tasks (remove_nth i (tasks s)) s)) as (Q1 & Q2 & Q3 & Q4 & Q5).
  rewrite Hstep. simpl.
  split; [reflexivity|]. split; [exact Q2|]. split; [exact Q5|]. split; [exact Q1|].
  intros s2 j Hj. cbv zeta.
  destruct (populate_total T name fields deployOptions VUndef He) as (f & Hf' & Hid & Hdeps).
  exists (VObj f).
  unfold step. rewrite Hj. unfold callback, bind, lift. rewrite Hf'.
  set (s0 := set_tasks (remove_nth j (tasks s2)) s2).
  pose proof (barrier_ok T (snd (push (VObj f) s0))) as Hok.
  assert (Hb : forall s', populatedFunctions (snd (barrier T s')) = populatedFunctions s' /\
                          unhandled (snd (barrier T s')) = unhandled s' /\
                          (forall e, outer (snd (barrier T s')) = Rejected e ->
                                     outer s' = Rejected e)).
  { intros s'. unfold barrier, resolve.
    destruct (Nat.eqb _ _); [destruct (outer s') eqn:Ho|]; simpl;
      repeat split; auto; try congruence. }
  destruct (Hb (snd (push (VObj f) s0))) as (B1 & B2 & B3).
  unfold push in *. simpl in *.
  destruct (barrier T _) as [[[]|e] s4]; simpl in *; [|discriminate].
  split; [exact B1|]. rewrite Hid, Hdeps.
  split; [reflexivity|]. split; [reflexivity|]. split; [exact B2 | exact B3].
Qed.

Lemma missing_manifest_recovered_witness :
  let W := Demo.cluster in
  let T := Demo.python_only in
  let s := deployment W T [0] in
  nth_error (tasks s) 0 =
    Some (DeployOptionsThen "report" Demo.report (VStr "/art/py.zip") "requirements.txt"
            (VObj [("content", VStr "UEsDBA=="); ("checksum", VStr "sha256:0")])) /\
  files W "/art/py.zip" = Some (RegularFile 2048 (Some [])) /\
  exists f,
    populatedFunctions (step W T 0 (step W T 0 s)) = [f] /\
    prop "deps" f = Ok VUndef /\
    unhandled (step W T 0 (step W T 0 s)) = [].
Proof.
  intros W T s.
  assert (Hh : truthy (field "handler"
                 [("handler", VStr "report.run"); ("runtime", VStr "python2.7");
                  ("events", VArr [VObj [("schedule", VStr "* * * * *")]])]) = true)
    by reflexivity.
  assert (He : Forall (fun event => nullish event = false)
                 (declared_events
                    [("handler", VStr "report.run"); ("runtime", VStr "python2.7");
                     ("events", VArr [VObj [("schedule", VStr "* * * * *")]])]))
    by (repeat constructor).
  assert (Hf : files W "/art/py.zip" = Some (RegularFile 2048 (Some []))) by reflexivity.
  assert (Hi : nth_error (tasks s) 0 =
    Some (DeployOptionsThen "report" Demo.report (VStr "/art/py.zip") "requirements.txt"
            (VObj [("content", VStr "UEsDBA=="); ("checksum", VStr "sha256:0")])))
    by reflexivity.
  destruct (missing_manifest_recovered W T "report" _ "/art/py.zip" "requirements.txt"
              _ 2048%N (Some []) [0] 0 Hh He Hf eq_refl Hi)
    as (_ & _ & _ & _ & Hthen).
  destruct (Hthen (step W T 0 s) 0 eq_refl) as (f & Hpop & _ & Hdeps & Hun & _).
  split; [exact Hi|]. split; [exact Hf|].
  exists f. split; [exact Hpop|]. split; [exact Hdeps | exact Hun].
Defined.

(** ** Where a rejection comes from *)

Section Rejection.

Variable W : world.
Variable T : plugin.

Lemma barrier_rejected s e :
  outer (snd (barrier T s)) = Rejected e -> outer s = Rejected e.
Proof.
  unfold barrier, resolve.
  destruct (Nat.eqb _ _); [destruct (outer s) eqn:Ho|]; simpl; congruence.
Qed.

Lemma each_function_rejected description name s e :
  outer (snd (each_function W T description name s)) = Rejected e ->
  outer s = Rejected e.
Proof.
  unfold each_function, bind.
  pose proof (quiet_getPkg W T description name s) as (_ & Q1 & _).
  destruct (getPkg W T description name s) as [[pkg|e1] s1]; simpl in *;
    [|congruence].
  pose proof (quiet_checkSize W pkg s1) as (_ & Q2 & _).
  destruct (checkSize W pkg s1) as [[[]|e2] s2]; simpl in *; [|congruence].
  unfold lift. destruct (prop "handler" description) as [handler|e3]; simpl;
    [|congruence].
  destruct (truthy handler).
  - destruct (rbind _ _) as [rt|e4]; simpl; congruence.
  - intros H. apply barrier_rejected in H. simpl in H. congruence.
Qed.

Lemma each_rejected fs s e :
  outer (snd (each W T fs s)) = Rejected e -> outer s = Rejected e.
Proof.
  revert s. induction fs as [|[name description] fs IH]; intros s; simpl; [auto|].
  unfold bind.
  pose proof (each_function_rejected description name s e) as H.
  destruct (each_function W T description name s) as [[[]|e1] s1]; simpl in *; auto.
Qed.

Lemma settle_outer r : outer (settle r) = outer (snd r).
Proof. destruct r as [[[]|e] s]; reflexivity. Qed.

(** The outer promise is rejected only by [.catch(reject)], with the error
    of a strategy deploy that failed. *)
Lemma rejection_origin schedule e :
  outer (deployment W T schedule) = Rejected e ->
  exists name d pkg, strategy_deploy W name d pkg = Throw e.
Proof.
  unfold deployment.
  assert (H0 : outer (deployFunction W T initial) <> Rejected e).
  { unfold deployFunction. destruct (config_init W); [|discriminate].
    rewrite settle_outer. intros H. apply each_rejected in H. discriminate H. }
  revert H0. generalize (deployFunction W T initial).
  induction schedule as [|i schedule IH]; intros s H0 H; simpl in H; [contradiction|].
  destruct (outer (step W T i s)) as [| |e'] eqn:Hs;
    try (apply (IH (step W T i s)); [rewrite Hs; discriminate | exact H]).
  assert (He : e' = e).
  { rewrite (run_outer_settled W T schedule (step W T i s)) in H
      by (rewrite Hs; discriminate).
    congruence. }
  subst e'. clear IH H.
  unfold step in Hs. destruct (nth_error (tasks s) i) as [t|]; [|contradiction].
  rewrite settle_outer in Hs.
  destruct t as [name d pkg depFile | name d pkg depFile opts | name d opts req |];
    unfold callback, bind in Hs.
  - destruct (strategy_deploy W name d pkg) as [v|e1] eqn:Hd; simpl in Hs;
      [contradiction|].
    unfold reject in Hs. simpl in Hs.
    destruct (outer s) eqn:Ho; simpl in Hs; try congruence.
    injection Hs as ->. eauto.
  - pose proof (quiet_getFileContent W pkg depFile
                  (set_tasks (remove_nth i (tasks s)) s)) as (_ & Q & _).
    destruct (getFileContent W pkg depFile _) as [[settled|e1] s1];
      simpl in *; congruence.
  - unfold lift in Hs. destruct (populate T name d opts req) as [f|e1];
      simpl in Hs; [|contradiction].
    pose proof (barrier_ok T (snd (push f (set_tasks (remove_nth i (tasks s)) s)))) as Hok.
    pose proof (barrier_rejected (snd (push f (set_tasks (remove_nth i (tasks s)) s))) e)
      as Hb.
    unfold push in *. simpl in *.
    destruct (barrier T _) as [[[]|e1] s3]; simpl in *; [|discriminate].
    specialize (Hb Hs). contradiction.
  - simpl in Hs. contradiction.
Qed.

End Rejection.

(** ** What an iteration and a callback do *)

Lemma id_of_plain description name :
  id_of (VObj (Lodash.assign [] [description; VObj [("id", VStr name)]])) = VStr name.
Proof.
  unfold id_of, field, Lodash.assign. simpl fold_left. simpl own_props.
  rewrite assoc_assign1; [reflexivity|].
  repeat constructor; simpl; tauto.
Qed.

Lemma id_of_populate T name description deployOptions requirementsContent f :
  populate T name description deployOptions requirementsContent = Ok f ->
  id_of f = VStr name.
Proof.
  unfold populate. destruct (rbind (prop "image" description) _) as [image|e]; simpl;
    [|discriminate].
  destruct (rbind (prop "events" description) _) as [events|e]; simpl;
    [|discriminate].
  intros H. injection H as <-.
  unfold id_of, field, Lodash.assign. simpl fold_left. simpl own_props.
  rewrite assoc_assign1; [reflexivity|].
  repeat constructor; simpl; intuition discriminate.
Qed.

Lemma push_barrier_pushes T name f base s :
  id_of f = VStr name ->
  tasks s = base ->
  pushes (total T) name base s (snd (barrier T (snd (push f s)))).
Proof.
  intros Hid Hb. unfold barrier, push, resolve. simpl.
  destruct (Nat.eqb_spec (List.length (populatedFunctions s ++ [f])) (total T)) as [E|E].
  - destruct (outer s) eqn:Ho; simpl.
    + apply (pushes_intro _ _ _ _ _ f); simpl; auto. right. rewrite Hb. auto.
    + apply (pushes_intro _ _ _ _ _ f); simpl; auto.
    + apply (pushes_intro _ _ _ _ _ f); simpl; auto.
  - apply (pushes_intro _ _ _ _ _ f); simpl; auto.
Qed.

Lemma pushes_core n name base s0 s s' :
  populatedFunctions s = populatedFunctions s0 ->
  outer s = outer s0 ->
  submitted s = submitted s0 ->
  unhandled s = unhandled s0 ->
  pushes n name base s s' -> pushes n name base s0 s'.
Proof.
  intros P O Sb U [f Hid Hp Hu Hs Ht].
  apply (pushes_intro _ _ _ _ _ f); congruence.
Qed.

Lemma each_function_effect W T description name s :
  match each_function W T description name s with
  | (Throw _, s') => same_core s s'
  | (Ok _, s') =>
      (exists pkg depFile,
         queues (StrategySettled name description pkg depFile) (tasks s) s s') \/
      pushes (total T) name (tasks s) s s'
  end.
Proof.
  unfold each_function, bind.
  pose proof (quiet_getPkg W T description name s) as Q1.
  destruct (getPkg W T description name s) as [[pkg|e] s1]; simpl in Q1; [|exact Q1].
  pose proof (quiet_checkSize W pkg s1) as Q2.
  assert (Q : same_core s (snd (checkSize W pkg s1)))
    by (eapply same_core_trans; eassumption).
  clear Q1 Q2.
  destruct (checkSize W pkg s1) as [[[]|e] s2]; simpl in Q; [|exact Q].
  unfold lift. destruct (prop "handler" description) as [handler|e]; [|exact Q].
  destruct Q as (P & O & Tk & Sb & U).
  destruct (truthy handler).
  - destruct (rbind _ _) as [rt|e]; [|repeat split; assumption].
    unfold spy, spawn. simpl.
    left. exists pkg, (getRuntimeDepfile W rt).
    constructor; simpl; try assumption; [congruence | left; assumption].
  - pose proof (push_barrier_pushes T name
      (VObj (Lodash.assign [] [description; VObj [("id", VStr name)]])) (tasks s) s2
      (id_of_plain description name) Tk) as H.
    pose proof (barrier_ok T (snd (push
      (VObj (Lodash.assign [] [description; VObj [("id", VStr name)]])) s2))) as Hok.
    unfold push in *. simpl in *.
    destruct (barrier T _) as [[[]|e] s3]; simpl in *; [|discriminate].
    right. eapply pushes_core; [| | | |exact H]; assumption.
Qed.

Lemma step_effect W T i s t :
  nth_error (tasks s) i = Some t ->
  let base := remove_nth i (tasks s) in
  let s' := step W T i s in
  match t with
  | StrategySettled name d pkg depFile =>
      exists deployOptions,
        queues (DeployOptionsThen name d pkg depFile deployOptions) base s s'
  | DeployOptionsThen name d pkg depFile deployOptions =>
      (exists requirementsContent,
         queues (RequirementsThen name d deployOptions requirementsContent) base s s') \/
      (exists e, dies e base s s')
  | RequirementsThen name d deployOptions requirementsContent =>
      pushes (total T) name base s s' \/ (exists e, dies e base s s')
  | SubmitThen =>
      populatedFunctions s' = populatedFunctions s /\
      unhandled s' = unhandled s /\
      outer s' = outer s /\
      tasks s' = base /\
      submitted s' = (submitted s ++ [populatedFunctions s])%list
  end.
Proof.
  intros Hi base s'. unfold s', step. rewrite Hi. fold base.
  set (s0 := set_tasks base s).
  destruct t as [name d pkg depFile | name d pkg depFile opts | name d opts req |];
    unfold callback, bind.
  - destruct (strategy_deploy W name d pkg) as [v|e]; simpl.
    + exists v. constructor; simpl; auto.
    + exists VUndef. unfold reject. simpl.
      destruct (outer s) eqn:Ho; simpl; constructor; simpl; rewrite ?Ho; auto.
      right. split; [reflexivity | eauto].
  - pose proof (quiet_getFileContent W pkg depFile s0) as (P & O & Tk & Sb & U).
    destruct (getFileContent W pkg depFile s0) as [[settled|e] s1]; simpl in *.
    + left. exists (catch_ignore settled). constructor; simpl; auto. congruence.
    + right. exists e. constructor; simpl; auto. congruence.
  - unfold lift. destruct (populate T name d opts req) as [f|e] eqn:Hf; simpl.
    + pose proof (push_barrier_pushes T name f base s0
                    (id_of_populate T name d opts req f Hf) eq_refl) as H.
      pose proof (barrier_ok T (snd (push f s0))) as Hok.
      unfold push in *. simpl in *.
      destruct (barrier T _) as [[[]|e] s3]; simpl in *; [|discriminate].
      left. eapply pushes_core; [| | | |exact H]; reflexivity.
    + right. exists e. constructor; reflexivity.
  - simpl. repeat split.
Qed.

(** ** A throw is a function lost *)

Lemma filter_snoc {A} (p : A -> bool) (l : list A) (x : A) :
  List.length (filter p (l ++ [x])) =
  List.length (filter p l) + (if p x then 1 else 0).
Proof. rewrite filter_app, length_app. simpl. destruct (p x); reflexivity. Qed.

Lemma run_app W T (a b : list nat) s :
  run W T (a ++ b) s = run W T b (run W T a s).
Proof. unfold run. apply fold_left_app. Qed.

Section Loss.

Variable W : world.
Variable T : plugin.

Let n := total T.

Lemma each_function_loss r description name s :
  loss_inv n (S r) s ->
  match each_function W T description name s with
  | (Ok _, s') => loss_inv n r s'
  | (Throw _, s') => loss_inv n (S r) s'
  end.
Proof.
  intros H. pose proof (each_function_effect W T description name s) as E.
  destruct (each_function W T description name s) as [[[]|e] s'].
  - destruct E as [(pkg & depFile & [P U _ Tk _]) | [f _ P U _ Tk]];
      unfold loss_inv, branches in *.
    + rewrite P, U, Tk, filter_snoc. simpl. lia.
    + rewrite P, U, length_app. simpl.
      destruct Tk as [[-> _] | (-> & _)]; rewrite ?filter_snoc; simpl; lia.
  - destruct E as (P & _ & Tk & _ & U). unfold loss_inv, branches in *.
    now rewrite P, Tk, U.
Qed.

Lemma each_loss fs s :
  loss_inv n (List.length fs) s ->
  match each W T fs s with
  | (Ok _, s') => loss_inv n 0 s'
  | (Throw _, s') => loss_inv n 1 s'
  end.
Proof.
  revert s. induction fs as [|[name description] fs IH]; intros s H; simpl.
  - exact H.
  - unfold bind. pose proof (each_function_loss (List.length fs) description name s H) as E.
    destruct (each_function W T description name s) as [[[]|e] s1].
    + apply IH, E.
    + unfold loss_inv in *. lia.
Qed.

Lemma deployFunction_loss : 0 < n -> loss_inv n 0 (deployFunction W T initial).
Proof.
  intros Hn. unfold deployFunction. destruct (config_init W).
  - assert (H0 : loss_inv n (List.length (service_functions T)) initial)
      by (unfold loss_inv, branches; simpl; fold (total T); fold n; lia).
    pose proof (each_loss (service_functions T) initial H0) as E.
    destruct (each W T (service_functions T) initial) as [[[]|e] s']; simpl.
    + exact E.
    + unfold loss_inv, branches in *. simpl. rewrite length_app. simpl. lia.
  - unfold loss_inv, branches. simpl. lia.
Qed.

Lemma step_loss i s : loss_inv n 0 s -> loss_inv n 0 (step W T i s).
Proof.
  intros H. destruct (nth_error (tasks s) i) as [t|] eqn:Hi.
  2: { unfold step. now rewrite Hi. }
  pose proof (step_effect W T i s t Hi) as E.
  pose proof (filter_remove_nth is_branch _ _ _ Hi) as F.
  unfold loss_inv, branches in *.
  destruct t as [name d pkg depFile | name d pkg depFile opts | name d opts req |];
    simpl in E, F.
  - destruct E as (opts & [P U _ Tk _]).
    rewrite P, U, Tk, filter_snoc. simpl. lia.
  - destruct E as [(req & [P U _ Tk _]) | (e & [P U _ Tk _])].
    + rewrite P, U, Tk, filter_snoc. simpl. lia.
    + rewrite P, U, Tk, length_app. simpl. lia.
  - destruct E as [[f _ P U _ Tk] | (e & [P U _ Tk _])].
    + rewrite P, U, length_app. simpl.
      destruct Tk as [[-> _] | (-> & _)]; rewrite ?filter_snoc; simpl; lia.
    + rewrite P, U, Tk, length_app. simpl. lia.
  - destruct E as (P & U & _ & Tk & _). rewrite P, U, Tk. lia.
Qed.

Lemma deployment_loss schedule : 0 < n -> loss_inv n 0 (deployment W T schedule).
Proof.
  intros Hn. unfold deployment.
  pose proof (deployFunction_loss Hn) as H. revert H.
  generalize (deployFunction W T initial).
  induction schedule as [|i schedule IH]; intros s H; simpl; [exact H|].
  apply IH, step_loss, H.
Qed.

(** What was thrown stays thrown. *)
Lemma step_unhandled i s : unhandled s <> [] -> unhandled (step W T i s) <> [].
Proof.
  intros H. destruct (nth_error (tasks s) i) as [t|] eqn:Hi.
  2: { unfold step. now rewrite Hi. }
  pose proof (step_effect W T i s t Hi) as E.
  destruct t as [name d pkg depFile | name d pkg depFile opts | name d opts req |];
    simpl in E.
  - destruct E as (opts & [_ U _ _ _]). now rewrite U.
  - destruct E as [(req & [_ U _ _ _]) | (e & [_ U _ _ _])]; rewrite U; [assumption|].
    now destruct (unhandled s).
  - destruct E as [[f _ _ U _ _] | (e & [_ U _ _ _])]; rewrite U; [assumption|].
    now destruct (unhandled s).
  - destruct E as (_ & U & _). now rewrite U.
Qed.

Lemma run_unhandled schedule s :
  unhandled s <> [] -> unhandled (run W T schedule s) <> [].
Proof.
  revert s. induction schedule as [|i schedule IH]; intros s H; simpl; [exact H|].
  apply IH, step_unhandled, H.
Qed.

End Loss.

Lemma thrown_blocks_deploy (W : world) (T : plugin) (schedule : list nat) :
  unhandled (deployment W T schedule) <> [] ->
  submitted (deployment W T schedule) = [] /\
  outer (deployment W T schedule) <> Fulfilled.
Proof.
  intros Hu.
  destruct (Nat.eq_dec (total T) 0) as [Hz|Hz].
  - assert (Hf : service_functions T = [])
      by (unfold total in Hz; now destruct (service_functions T)).
    unfold deployment, deployFunction. rewrite Hf.
    destruct (config_init W) as [[]|e]; simpl; rewrite run_idle;
      simpl; (split; [reflexivity | discriminate]) || reflexivity.
  - pose proof (deployment_loss W T schedule) as L.
    destruct (deployment_inv W T schedule) as [(_ & _ & H3) _].
    unfold loss_inv in L.
    assert (Hlt : List.length (populatedFunctions (deployment W T schedule)) < total T).
    { specialize (L ltac:(lia)).
      destruct (unhandled (deployment W T schedule)); [congruence|]. simpl in L. lia. }
    destruct (outer (deployment W T schedule));
      [split; [apply H3 | discriminate] | | split; [apply H3 | discriminate]].
    destruct H3 as [H3 _]. lia.
Qed.

(** X4: all or nothing. Once anything has thrown, in [_.each] (artifact
    resolution, size check, a declaration that is [null]), in a callback
    (reading a directory, a [null] event) or in [kubelessConfig.init()],
    [deploy] has not been called and never will be, and the promise is never
    fulfilled, whatever runs afterwards. *)
Theorem thrown_never_submits (W : world) (T : plugin) (schedule later : list nat) :
  unhandled (deployment W T schedule) <> [] ->
  let s' := run W T later (deployment W T schedule) in
  submitted s' = [] /\ outer s' <> Fulfilled.
Proof.
  intros Hu s'.
  assert (Hs' : s' = deployment W T (schedule ++ later))
    by (unfold s', deployment; now rewrite run_app).
  rewrite Hs'. apply thrown_blocks_deploy.
  rewrite <- Hs'. apply run_unhandled, Hu.
Qed.

Lemma thrown_never_submits_witness :
  let T := Demo.individually "/art/svc.zip" in
  unhandled (deployment Demo.cluster T []) <> [] /\
  submitted (run Demo.cluster T [0; 1; 0] (deployment Demo.cluster T [])) = [] /\
  outer (run Demo.cluster T [0; 1; 0] (deployment Demo.cluster T [])) <> Fulfilled.
Proof.
  intros T.
  assert (Hu : unhandled (deployment Demo.cluster T []) <> []) by discriminate.
  split; [exact Hu|].
  exact (thrown_never_submits Demo.cluster T [] [0; 1; 0] Hu).
Defined.


(** ** Every function once *)

Lemma waiting_remove (l : list task) i t :
  nth_error l i = Some t ->
  Permutation (flat_map task_name l) (task_name t ++ flat_map task_name (remove_nth i l)).
Proof.
  revert i. induction l as [|x l IH]; intros [|i] H; simpl in *; try discriminate.
  - injection H as ->. reflexivity.
  - specialize (IH _ H).
    rewrite (Permutation_app_head (task_name x) IH).
    rewrite !app_assoc. apply Permutation_app_tail, Permutation_app_comm.
Qed.

Lemma waiting_snoc (l : list task) t :
  flat_map task_name (l ++ [t]) = (flat_map task_name l ++ task_name t)%list.
Proof. rewrite flat_map_app. simpl. now rewrite app_nil_r. Qed.

Lemma map_VStr_middle (a b : list string) (x : string) :
  Permutation (List.map VStr (a ++ x :: b)) (VStr x :: List.map VStr (a ++ b)).
Proof. rewrite !map_app. simpl. symmetry. apply Permutation_middle. Qed.

(** The three ways a function changes place. *)
Lemma account_push names ids (w rest : list string) x :
  Permutation (List.map VStr names) (ids ++ List.map VStr (w ++ x :: rest)) ->
  Permutation (List.map VStr names) ((ids ++ [VStr x]) ++ List.map VStr (w ++ rest)).
Proof.
  intros H. rewrite H, <- app_assoc. apply Permutation_app_head. simpl.
  apply map_VStr_middle.
Qed.

Lemma account_move names ids (w w' tail : list string) :
  Permutation w w' ->
  Permutation (List.map VStr names) (ids ++ List.map VStr (w ++ tail)) ->
  Permutation (List.map VStr names) (ids ++ List.map VStr (w' ++ tail)).
Proof.
  intros Hw H. rewrite H. apply Permutation_app_head, Permutation_map.
  now apply Permutation_app_tail.
Qed.

Section Accounted.

Variable W : world.
Variable T : plugin.

Let names := List.map fst (service_functions T).

Lemma each_function_accounted rest description name s :
  accounted names (name :: rest) s ->
  match each_function W T description name s with
  | (Ok _, s') => accounted names rest s'
  | (Throw _, s') => accounted names (name :: rest) s'
  end.
Proof.
  intros (lost & H). pose proof (each_function_effect W T description name s) as E.
  destruct (each_function W T description name s) as [[[]|e] s'].
  - destruct E as [(pkg & depFile & [P _ _ Tk _]) | [f Hid P _ _ Tk]];
      exists lost; unfold waiting in *.
    + rewrite P, Tk, waiting_snoc. simpl. rewrite <- app_assoc. exact H.
    + assert (Hw : flat_map task_name (tasks s') = flat_map task_name (tasks s)).
      { destruct Tk as [[-> _] | (-> & _)]; [reflexivity|].
        rewrite waiting_snoc. simpl. now rewrite app_nil_r. }
      rewrite P, Hw, map_app. simpl. rewrite Hid.
      apply account_push. exact H.
  - destruct E as (P & _ & Tk & _). exists lost. unfold waiting in *.
    now rewrite P, Tk.
Qed.

Lemma accounted_abandon rest s : accounted names rest s -> accounted names [] s.
Proof.
  intros (lost & H). exists (rest ++ lost)%list. exact H.
Qed.

Lemma each_accounted fs s :
  accounted names (List.map fst fs) s ->
  accounted names [] (snd (each W T fs s)).
Proof.
  revert s. induction fs as [|[name description] fs IH]; intros s H; simpl.
  - exact H.
  - unfold bind.
    pose proof (each_function_accounted (List.map fst fs) description name s H) as E.
    destruct (each_function W T description name s) as [[[]|e] s1]; simpl.
    + apply IH, E.
    + eapply accounted_abandon, E.
Qed.

Lemma accounted_unhandled es s : accounted names [] s -> accounted names [] (set_unhandled es s).
Proof. auto. Qed.

Lemma deployFunction_accounted : accounted names [] (deployFunction W T initial).
Proof.
  assert (H0 : accounted names names initial).
  { exists []. simpl. now rewrite app_nil_r. }
  unfold deployFunction. destruct (config_init W).
  - pose proof (each_accounted (service_functions T) initial H0) as E.
    destruct (each W T (service_functions T) initial) as [[[]|e] s']; exact E.
  - apply accounted_unhandled. eapply accounted_abandon, H0.
Qed.

Lemma step_accounted i s : accounted names [] s -> accounted names [] (step W T i s).
Proof.
  intros (lost & H). destruct (nth_error (tasks s) i) as [t|] eqn:Hi.
  2: { unfold step. rewrite Hi. now exists lost. }
  pose proof (step_effect W T i s t Hi) as E.
  pose proof (waiting_remove _ _ _ Hi) as Hw.
  unfold accounted, waiting in *. simpl in H.
  destruct t as [name d pkg depFile | name d pkg depFile opts | name d opts req |];
    simpl in E, Hw.
  - destruct E as (opts & [P _ _ Tk _]). exists lost.
    rewrite P, Tk, waiting_snoc. simpl.
    eapply account_move; [|exact H].
    rewrite Hw. apply Permutation_cons_append.
  - destruct E as [(req & [P _ _ Tk _]) | (e & [P _ _ Tk _])].
    + exists lost. rewrite P, Tk, waiting_snoc. simpl.
      eapply account_move; [|exact H].
      rewrite Hw. apply Permutation_cons_append.
    + exists (name :: lost). rewrite P, Tk. simpl.
      rewrite H. apply Permutation_app_head, Permutation_map.
      rewrite Hw. simpl. apply Permutation_middle.
  - destruct E as [[f Hid P _ _ Tk] | (e & [P _ _ Tk _])].
    + exists lost.
      assert (Hb : flat_map task_name (tasks (step W T i s)) =
                   flat_map task_name (remove_nth i (tasks s))).
      { destruct Tk as [[-> _] | (-> & _)]; [reflexivity|].
        rewrite waiting_snoc. simpl. now rewrite app_nil_r. }
      rewrite P, Hb, map_app.
      change (List.map id_of [f]) with [id_of f]. rewrite Hid.
      apply (account_push names _ []
               (flat_map task_name (remove_nth i (tasks s)) ++ lost)%list name).
      exact (account_move _ _ _ _ _ Hw H).
    + exists (name :: lost). rewrite P, Tk. simpl.
      rewrite H. apply Permutation_app_head, Permutation_map.
      rewrite Hw. simpl. apply Permutation_middle.
  - destruct E as (P & _ & _ & Tk & _). exists lost. rewrite P, Tk.
    eapply account_move; [exact Hw | exact H].
Qed.

Lemma deployment_accounted schedule : accounted names [] (deployment W T schedule).
Proof.
  unfold deployment. pose proof deployFunction_accounted as H. revert H.
  generalize (deployFunction W T initial).
  induction schedule as [|i schedule IH]; intros s H; simpl; [exact H|].
  apply IH, step_accounted, H.
Qed.

End Accounted.

(** X10: under every schedule the populated records carry the names of
    distinct declared functions as their [id]: the ids, together with some
    of the remaining names, are the declared names up to order. The
    collection handed to [deploy] has exactly one record per declared
    function. *)
Theorem one_record_per_function (W : world) (T : plugin) (schedule : list nat) :
  let s := deployment W T schedule in
  let names := List.map fst (service_functions T) in
  (exists others,
     Permutation (List.map VStr names)
       (List.map id_of (populatedFunctions s) ++ List.map VStr others)) /\
  (forall batch,
     In batch (submitted s) ->
     Permutation (List.map id_of batch) (List.map VStr names)).
Proof.
  intros s names.
  destruct (deployment_accounted W T schedule) as (lost & H). fold s names in H.
  split; [eexists; exact H|].
  intros batch Hin.
  destruct (deployment_inv W T schedule) as [(H1 & _ & H3) _]. fold s in H1, H3.
  assert (Hb : batch = populatedFunctions s /\
               List.length (populatedFunctions s) = total T).
  { destruct (outer s); try (destruct H3 as [H3 _]; rewrite H3 in Hin; contradiction).
    destruct H3 as [Hl [[Hs _]|[Hs _]]]; rewrite Hs in Hin; [contradiction|].
    destruct Hin as [<-|[]]. split; [reflexivity | exact Hl]. }
  destruct Hb as [-> Hl].
  pose proof (Permutation_length H) as L.
  rewrite length_app, !length_map in L. unfold names in L.
  rewrite length_map in L. fold (total T) in L.
  assert (Hnil : (waiting s ++ [] ++ lost)%list = []).
  { destruct (waiting s ++ [] ++ lost)%list; [reflexivity | simpl in L; lia]. }
  rewrite Hnil in H. simpl in H. rewrite app_nil_r in H. now symmetry.
Qed.

Lemma one_record_per_function_witness :
  exists batch,
    In batch (submitted (deployment Demo.cluster Demo.mixed [1; 0; 1; 0; 0; 0; 0])) /\
    Permutation (List.map id_of batch)
      (List.map VStr (List.map fst (service_functions Demo.mixed))).
Proof.
  assert (Hin : In (populatedFunctions
                      (deployment Demo.cluster Demo.mixed [1; 0; 1; 0; 0; 0; 0]))
                   (submitted (deployment Demo.cluster Demo.mixed [1; 0; 1; 0; 0; 0; 0])))
    by (vm_compute; left; reflexivity).
  exists (populatedFunctions (deployment Demo.cluster Demo.mixed [1; 0; 1; 0; 0; 0; 0])).
  split; [exact Hin|].
  apply (proj2 (one_record_per_function Demo.cluster Demo.mixed [1; 0; 1; 0; 0; 0; 0])).
  exact Hin.
Defined.

(** ** The packaging hook *)

Lemma field_set_prop_same k v ps : field k (set_prop k v ps) = v.
Proof. unfold field. now rewrite assoc_set_prop_same. Qed.

Lemma excludes_array T patterns :
  field "exclude" (service_package T) = VArr patterns ->
  excludes T =
  Ok (set_package
        (set_prop "exclude" (VArr (patterns ++ [VStr "node_modules/**"]))
           (service_package T)) T).
Proof. intros H. unfold excludes. rewrite H. reflexivity. Qed.

Lemma excludes_times_array n : forall T patterns,
  field "exclude" (service_package T) = VArr patterns ->
  exists T',
    excludes_times n T = Ok T' /\
    field "exclude" (service_package T') =
      VArr (patterns ++ repeat (VStr "node_modules/**") n) /\
    (forall k, k <> "exclude" ->
       assoc k (service_package T') = assoc k (service_package T)) /\
    service_functions T' = service_functions T /\
    options T' = options T.
Proof.
  induction n as [|n IH]; intros T patterns H; simpl.
  - exists T. rewrite app_nil_r. repeat split; auto.
  - rewrite (excludes_array T patterns H). simpl.
    destruct (IH (set_package
                    (set_prop "exclude" (VArr (patterns ++ [VStr "node_modules/**"]))
                       (service_package T)) T)
                 (patterns ++ [VStr "node_modules/**"])%list)
      as (T' & Hrun & Hex & Hk & Hf & Ho).
    { simpl. apply field_set_prop_same. }
    exists T'. split; [exact Hrun|]. split; [|split; [|split; assumption]].
    + rewrite Hex, <- app_assoc. reflexivity.
    + intros k Hne. rewrite (Hk k Hne). simpl. now apply assoc_set_prop_other.
Qed.

(** X1: [excludes] keeps the patterns the service lists, in order, and adds
    [node_modules/**] after them; an unset [exclude] counts as empty. It adds
    the pattern at every call, without looking for it: after [n] calls it is
    there [n] times. Nothing else of the service changes. An [exclude] that
    is set but is not a list makes the hook throw. *)
Theorem excludes_appends :
  (forall (T : plugin) (patterns : list value) (n : nat),
     field "exclude" (service_package T) = VArr patterns \/
     truthy (field "exclude" (service_package T)) = false /\ patterns = [] ->
     0 < n ->
     exists T',
       excludes_times n T = Ok T' /\
       field "exclude" (service_package T') =
         VArr (patterns ++ repeat (VStr "node_modules/**") n) /\
       (forall k, k <> "exclude" ->
          assoc k (service_package T') = assoc k (service_package T)) /\
       service_functions T' = service_functions T /\
       options T' = options T) /\
  (forall T : plugin,
     truthy (field "exclude" (service_package T)) = true ->
     (forall patterns, field "exclude" (service_package T) <> VArr patterns) ->
     exists msg, excludes T = Throw (TypeError msg)).
Proof.
  split.
  - intros T patterns n [H | [H ->]] Hn.
    + apply excludes_times_array, H.
    + destruct n as [|n]; [lia|]. simpl.
      unfold excludes at 1. unfold or_else. rewrite H. simpl.
      destruct (excludes_times_array n
                  (set_package
                     (set_prop "exclude" (VArr [VStr "node_modules/**"])
                        (service_package T)) T)
                  [VStr "node_modules/**"])
        as (T' & Hrun & Hex & Hk & Hf & Ho).
      { simpl. apply field_set_prop_same. }
      exists T'. split; [exact Hrun|]. split; [exact Hex|].
      split; [|split; assumption].
      intros k Hne. rewrite (Hk k Hne). simpl. now apply assoc_set_prop_other.
  - intros T Ht Hn. unfold excludes, or_else. rewrite Ht. simpl.
    destruct (field "exclude" (service_package T)) as [| | | | | |patterns];
      try (eexists; reflexivity).
    exfalso. exact (Hn patterns eq_refl).
Qed.

Lemma excludes_appends_witness :
  field "exclude" (service_package with_excludes) = VArr [VStr "test/**"] /\
  exists T',
    excludes_times 2 with_excludes = Ok T' /\
    field "exclude" (service_package T') =
      VArr [VStr "test/**"; VStr "node_modules/**"; VStr "node_modules/**"].
Proof.
  split; [reflexivity|].
  destruct (proj1 excludes_appends with_excludes [VStr "test/**"] 2
              (or_introl eq_refl) (Nat.lt_0_succ 1))
    as (T' & Hrun & Hex & _).
  exists T'. split; [exact Hrun | exact Hex].
Defined.

(** ** Which artifact *)

Lemma getPkg_shared_mode W T description funcName s :
  truthy (field "package" (options T)) &&
    truthy (field "individually" (service_package T)) = false ->
  getPkg W T description funcName s =
  (or_else (field "package" (options T))
     (or_else (field "path" (service_package T))
        (or_else (field "artifact" (service_package T))
           (p <~ prop "package" description ;;
            a <~ prop "artifact" p ;;
            or_else a (Ok (config_artifact T))))),
   set_calls (calls s ++ [GetPkg funcName]) s).
Proof.
  intros Hm. unfold getPkg, bind, spy, lift, ret. simpl. rewrite Hm.
  destruct (or_else _ _); reflexivity.
Qed.

Lemma service_artifact_wins (o p a : value) (tail : res value) :
  truthy (first_truthy [o; p; a]) = true ->
  or_else o (or_else p (or_else a tail)) = Ok (first_truthy [o; p; a]).
Proof.
  unfold or_else. simpl.
  destruct (truthy o); [reflexivity|].
  destruct (truthy p); [reflexivity|].
  destruct (truthy a); [reflexivity | discriminate].
Qed.

(** X2: outside the individual-packaging mode the artifact is the first
    set one of: the [--package] option, [package.path], [package.artifact]
    of the service, [package.artifact] of the function, and the artifact of
    the framework's configuration. When one of the first three is set the
    declaration is not read at all. The call touches neither the disk nor
    the log. *)
Theorem getPkg_resolution_order
  (W : world) (T : plugin) (funcName : string) (s : state) :
  truthy (field "package" (options T)) &&
    truthy (field "individually" (service_package T)) = false ->
  let o := field "package" (options T) in
  let p := field "path" (service_package T) in
  let a := field "artifact" (service_package T) in
  (forall description,
     truthy (first_truthy [o; p; a]) = true ->
     getPkg W T description funcName s =
     (Ok (first_truthy [o; p; a]), set_calls (calls s ++ [GetPkg funcName]) s)) /\
  (forall fields package,
     field "package" fields = package ->
     nullish package = false ->
     getPkg W T (VObj fields) funcName s =
     (Ok (first_truthy [o; p; a; field "artifact" (own_props package);
                        config_artifact T]),
      set_calls (calls s ++ [GetPkg funcName]) s)).
Proof.
  intros Hm o p a. split.
  - intros description Ht. rewrite (getPkg_shared_mode W T description funcName s Hm).
    fold o p a. now rewrite service_artifact_wins.
  - intros fields package Hp Hn.
    rewrite (getPkg_shared_mode W T (VObj fields) funcName s Hm).
    fold o p a. f_equal. unfold or_else. simpl.
    fold (field "package" fields). rewrite Hp.
    destruct (truthy o); [reflexivity|].
    destruct (truthy p); [reflexivity|].
    destruct (truthy a); [reflexivity|].
    destruct package; try discriminate; simpl; unfold field;
      try match goal with
          | |- context [if truthy ?x then _ else _] => destruct (truthy x)
          end; reflexivity.
Qed.

Lemma getPkg_resolution_order_witness :
  fst (getPkg Demo.cluster Demo.mixed VNull "hello" initial) = Ok (VStr "/art/svc.zip") /\
  fst (getPkg Demo.cluster unpackaged
         (VObj [("package", VObj [("artifact", VStr "/art/py.zip")])]) "hello" initial)
    = Ok (VStr "/art/py.zip").
Proof.
  split.
  - exact (f_equal fst
             (proj1 (getPkg_resolution_order Demo.cluster Demo.mixed "hello" initial
                       eq_refl) VNull eq_refl)).
  - exact (f_equal fst
             (proj2 (getPkg_resolution_order Demo.cluster unpackaged "hello" initial
                       eq_refl)
                [("package", VObj [("artifact", VStr "/art/py.zip")])]
                (VObj [("artifact", VStr "/art/py.zip")]) eq_refl eq_refl)).
Defined.

(** ** A first function that cannot be resolved *)

(** When the iteratee throws at the first function nothing was launched:
    the state it leaves is the state for ever. *)
Lemma first_function_throws W T name d rest e s1 schedule :
  config_init W = Ok tt ->
  service_functions T = (name, d) :: rest ->
  each_function W T d name initial = (Throw e, s1) ->
  deployment W T schedule = set_unhandled (unhandled s1 ++ [e]) s1.
Proof.
  intros Hc Hfs He. unfold deployment, deployFunction. rewrite Hc, Hfs. simpl.
  unfold bind. rewrite He. simpl.
  pose proof (each_function_effect W T d name initial) as E. rewrite He in E.
  destruct E as (_ & _ & Tk & _). apply run_idle. exact Tk.
Qed.

(** X3: with no [--package], no [package.path] and no [package.artifact]
    of the service, a first function whose declaration has no [package]
    object makes [getPkg] throw a [TypeError]: the artifact of the
    framework's configuration is not reached. Nothing is logged, nothing is
    populated, the promise stays pending and [deploy] is not called, under
    every schedule. *)
Theorem undeclared_package_throws
  (W : world) (T : plugin) (name : string) (fields : props)
  (rest : list (string * value)) (schedule : list nat) :
  config_init W = Ok tt ->
  truthy (field "package" (options T)) = false ->
  truthy (field "path" (service_package T)) = false ->
  truthy (field "artifact" (service_package T)) = false ->
  nullish (field "package" fields) = true ->
  service_functions T = (name, VObj fields) :: rest ->
  let s := deployment W T schedule in
  (exists msg, unhandled s = [TypeError msg]) /\
  log s = [] /\
  calls s = [GetPkg name] /\
  populatedFunctions s = [] /\
  outer s = Pending /\
  submitted s = [].
Proof.
  intros Hc Ho Hp Ha Hn Hfs s.
  assert (Hm : truthy (field "package" (options T)) &&
               truthy (field "individually" (service_package T)) = false)
    by (rewrite Ho; reflexivity).
  assert (Hg : exists msg,
             getPkg W T (VObj fields) name initial =
             (Throw (TypeError msg), set_calls [GetPkg name] initial)).
  { rewrite (getPkg_shared_mode W T (VObj fields) name initial Hm).
    unfold or_else. rewrite Ho, Hp, Ha. simpl. fold (field "package" fields).
    destruct (field "package" fields); try discriminate; simpl; eexists; reflexivity. }
  destruct Hg as (msg & Hg).
  assert (He : each_function W T (VObj fields) name initial =
               (Throw (TypeError msg), set_calls [GetPkg name] initial))
    by (unfold each_function, bind; rewrite Hg; reflexivity).
  unfold s. rewrite (first_function_throws W T name _ rest _ _ schedule Hc Hfs He).
  simpl. repeat split. eexists; reflexivity.
Qed.

Lemma undeclared_package_throws_witness :
  service_functions unpackaged = [("hello", Demo.hello)] /\
  nullish (field "package" (own_props Demo.hello)) = true /\
  (exists msg, unhandled (deployment Demo.cluster unpackaged [0; 0]) = [TypeError msg]) /\
  outer (deployment Demo.cluster unpackaged [0; 0]) = Pending.
Proof.
  split; [reflexivity|]. split; [reflexivity|].
  destruct (undeclared_package_throws Demo.cluster unpackaged "hello"
              (own_props Demo.hello) [] [0; 0]
              eq_refl eq_refl eq_refl eq_refl eq_refl eq_refl)
    as (Hu & _ & _ & _ & Ho & _).
  split; [exact Hu | exact Ho].
Defined.

(** X11: when the artifact the service names does not exist on disk,
    [checkSize] throws at the first function, before any warning: nothing is
    logged, nothing is populated, the promise stays pending and [deploy] is
    not called, under every schedule. *)
Theorem missing_artifact_pending
  (W : world) (T : plugin) (path name : string) (d : value)
  (rest : list (string * value)) (schedule : list nat) :
  config_init W = Ok tt ->
  truthy (field "package" (options T)) &&
    truthy (field "individually" (service_package T)) = false ->
  first_truthy [field "package" (options T); field "path" (service_package T);
                field "artifact" (service_package T)] = VStr path ->
  path <> "" ->
  files W path = None ->
  service_functions T = (name, d) :: rest ->
  let s := deployment W T schedule in
  unhandled s = [ENOENT path] /\
  log s = [] /\
  calls s = [GetPkg name; CheckSize (VStr path)] /\
  populatedFunctions s = [] /\
  outer s = Pending /\
  submitted s = [].
Proof.
  intros Hc Hm Hft Hne Hf Hfs s.
  assert (Ht : truthy (first_truthy
                 [field "package" (options T); field "path" (service_package T);
                  field "artifact" (service_package T)]) = true).
  { rewrite Hft. simpl. destruct (String.eqb_spec path ""); [contradiction | reflexivity]. }
  pose proof (getPkg_shared_mode W T d name initial Hm) as Hg.
  rewrite service_artifact_wins, Hft in Hg by exact Ht.
  assert (He : each_function W T d name initial =
               (Throw (ENOENT path),
                set_calls [GetPkg name; CheckSize (VStr path)] initial)).
  { unfold each_function, bind. rewrite Hg.
    unfold checkSize, bind, spy, lift, statSync. simpl. rewrite Hf. reflexivity. }
  unfold s. rewrite (first_function_throws W T name _ rest _ _ schedule Hc Hfs He).
  simpl. repeat split.
Qed.

Lemma missing_artifact_pending_witness :
  files Demo.cluster "/art/none.zip" = None /\
  unhandled (deployment Demo.cluster unbuilt [0; 1]) = [ENOENT "/art/none.zip"] /\
  log (deployment Demo.cluster unbuilt [0; 1]) = [] /\
  outer (deployment Demo.cluster unbuilt [0; 1]) = Pending.
Proof.
  split; [reflexivity|].
  assert (Hne : "/art/none.zip" <> "") by discriminate.
  destruct (missing_artifact_pending Demo.cluster unbuilt "/art/none.zip" "hello"
              Demo.hello [("meta", VObj Demo.meta)] [0; 1]
              eq_refl eq_refl eq_refl Hne eq_refl eq_refl)
    as (Hu & Hl & _ & _ & Ho & _).
  split; [exact Hu|]. split; [exact Hl | exact Ho].
Defined.

(** ** Events that cannot be normalized *)

Lemma normalizeEvent_nullish event :
  nullish event = true -> exists msg, normalizeEvent event = Throw (TypeError msg).
Proof.
  destruct event; try discriminate; intros _; eexists; reflexivity.
Qed.

Lemma map_list_length f events rs :
  Lodash.map_list f events = Ok rs -> List.length rs = List.length events.
Proof.
  revert rs. induction events as [|event events IH]; simpl; intros rs H.
  - now injection H as <-.
  - destruct (f event) as [r|e]; simpl in H; [|discriminate].
    destruct (Lodash.map_list f events) as [rs'|e]; simpl in H; [|discriminate].
    injection H as <-. simpl. now rewrite (IH rs').
Qed.

Lemma map_list_normalizeEvent_nullish events :
  Exists (fun event => nullish event = true) events ->
  exists msg, Lodash.map_list normalizeEvent events = Throw (TypeError msg).
Proof.
  induction 1 as [event events Hn | event events _ (msg & IH)]; simpl.
  - destruct (normalizeEvent_nullish event Hn) as (msg & ->). now exists msg.
  - destruct (nullish event) eqn:Hn.
    + destruct (normalizeEvent_nullish event Hn) as (msg' & ->). now exists msg'.
    + destruct (normalizeEvent_total event Hn) as (r & ->). simpl. rewrite IH.
      now exists msg.
Qed.

(** X6: normalization returns one record per declared event when no event
    is [null] or [undefined] (none at all when [events] is unset), and
    throws a [TypeError] as soon as one is. Of an event with several keys
    only the first is read: the others leave no trace. *)
Theorem normalizeEvents_throws_on_null :
  (forall events : value,
     let declared := List.map snd (own_props events) in
     (Forall (fun event => nullish event = false) declared ->
      exists rs, normalizeEvents events = Ok (VArr rs) /\
                 List.length rs = List.length declared) /\
     (Exists (fun event => nullish event = true) declared ->
      exists msg, normalizeEvents events = Throw (TypeError msg))) /\
  normalizeEvents VUndef = Ok (VArr []) /\
  (forall (kind : string) (payload : value) (others : props),
     normalizeEvent (VObj ((kind, payload) :: others)) =
     normalizeEvent (VObj [(kind, payload)])).
Proof.
  split; [|split; [reflexivity|]].
  - intros events declared. unfold normalizeEvents, Lodash.map. fold declared. split.
    + intros H. destruct (map_list_normalizeEvent_total declared H) as (rs & Hrs).
      exists rs. rewrite Hrs. split; [reflexivity|].
      exact (map_list_length _ _ _ Hrs).
    + intros H. destruct (map_list_normalizeEvent_nullish declared H) as (msg & ->).
      now exists msg.
  - intros kind payload others. unfold normalizeEvent, first_key. simpl.
    rewrite String.eqb_refl. reflexivity.
Qed.

Lemma normalizeEvents_throws_on_null_witness :
  (exists rs,
     normalizeEvents (VArr [VObj [("http", VObj [])]; VObj [("trigger", VStr "t")]])
       = Ok (VArr rs) /\ List.length rs = 2) /\
  (exists msg,
     normalizeEvents (VArr [VObj [("http", VObj [])]; VNull]) = Throw (TypeError msg)).
Proof.
  destruct normalizeEvents_throws_on_null as (H & _). split.
  - apply (proj1 (H (VArr [VObj [("http", VObj [])]; VObj [("trigger", VStr "t")]]))).
    repeat constructor.
  - apply (proj2 (H (VArr [VObj [("http", VObj [])]; VNull]))).
    right. left. reflexivity.
Defined.

(** ** The record of a function with a handler *)

(** X5: in the record of a function with a handler, [id], [deps], [image]
    and [events] are the values the plugin computes, whatever the
    declaration or the strategy say under those keys; [image] is the
    function's when it is set and the provider's otherwise; for every other
    key what the strategy returned wins over the declaration. *)
Theorem populate_precedence
  (T : plugin) (name : string) (fields : props)
  (deployOptions requirementsContent : value) :
  NoDup (List.map fst fields) ->
  NoDup (List.map fst (own_props deployOptions)) ->
  Forall (fun event => nullish event = false) (declared_events fields) ->
  exists f events,
    populate T name (VObj fields) deployOptions requirementsContent = Ok (VObj f) /\
    normalizeEvents (field "events" fields) = Ok events /\
    forall k,
      assoc k f =
      if String.eqb k "id" then Some (VStr name)
      else if String.eqb k "deps" then Some requirementsContent
      else if String.eqb k "image" then
        Some (first_truthy [field "image" fields; field "image" (service_provider T)])
      else if String.eqb k "events" then Some events
      else match assoc k (own_props deployOptions) with
           | Some v => Some v
           | None => assoc k fields
           end.
Proof.
  intros Hf Ho He.
  destruct (map_list_normalizeEvent_total _ He) as (rs & Hrs).
  unfold populate. simpl.
  fold (field "image" fields). fold (field "events" fields).
  unfold normalizeEvents, Lodash.map. unfold declared_events in Hrs. rewrite Hrs.
  assert (Hi : or_else (field "image" fields) (Ok (field "image" (service_provider T))) =
               Ok (first_truthy [field "image" fields; field "image" (service_provider T)]))
    by (unfold or_else; simpl; destruct (truthy _); reflexivity).
  rewrite Hi. simpl.
  eexists. exists (VArr rs). split; [reflexivity|]. split; [reflexivity|].
  intros k. unfold Lodash.assign. simpl fold_left.
  rewrite assoc_assign1
    by (repeat constructor; simpl; intuition discriminate).
  simpl own_props. simpl assoc at 1.
  destruct (String.eqb k "id"); [reflexivity|].
  destruct (String.eqb k "deps"); [reflexivity|].
  destruct (String.eqb k "image"); [reflexivity|].
  destruct (String.eqb k "events"); [reflexivity|].
  rewrite assoc_assign1 by exact Ho.
  destruct (assoc k (own_props deployOptions)); [reflexivity|].
  rewrite assoc_assign1 by exact Hf. simpl.
  destruct (assoc k fields); reflexivity.
Qed.

Lemma populate_precedence_witness :
  exists f,
    populate Demo.mixed "hello"
      (VObj [("handler", VStr "h.run"); ("id", VStr "mine"); ("memorySize", VNum 128)])
      (VObj [("memorySize", VNum 256); ("checksum", VStr "sha256:0")]) VUndef
      = Ok (VObj f) /\
    assoc "id" f = Some (VStr "hello") /\
    assoc "memorySize" f = Some (VNum 256) /\
    assoc "handler" f = Some (VStr "h.run").
Proof.
  assert (Hf : NoDup (List.map fst
                 [("handler", VStr "h.run"); ("id", VStr "mine"); ("memorySize", VNum 128)]))
    by (repeat constructor; simpl; intuition discriminate).
  assert (Ho : NoDup (List.map fst
                 (own_props (VObj [("memorySize", VNum 256); ("checksum", VStr "sha256:0")]))))
    by (repeat constructor; simpl; intuition discriminate).
  destruct (populate_precedence Demo.mixed "hello" _ _ VUndef Hf Ho (Forall_nil _))
    as (f & events & Hrun & _ & Hk).
  exists f. split; [exact Hrun|].
  split; [exact (Hk "id")|]. split; [exact (Hk "memorySize") | exact (Hk "handler")].
Defined.

(** ** Reading the dependency file *)

(** What the archive read settles with for a regular file. *)
Lemma read_step W T schedule i name d pkg depFile deployOptions size z :
  let s := deployment W T schedule in
  nth_error (tasks s) i =
    Some (DeployOptionsThen name d (VStr pkg) depFile deployOptions) ->
  files W pkg = Some (RegularFile size z) ->
  let settled :=
    match z with
    | Some zip => file_async_string zip depFile
    | None => Throw ZipError
    end in
  tasks (step W T i s) =
    (remove_nth i (tasks s) ++
     [RequirementsThen name d deployOptions (catch_ignore settled)])%list /\
  outer (step W T i s) = outer s /\
  unhandled (step W T i s) = unhandled s /\
  populatedFunctions (step W T i s) = populatedFunctions s.
Proof.
  intros s Hi Hf settled.
  pose proof (deployment_fresh W T schedule) as Hfresh. fold s in Hfresh.
  clearbody s.
  unfold step. rewrite Hi. unfold callback, bind.
  unfold getFileContent, readFileSync, loadZip, JSZip_loadAsync, bind, spy, lift, ret.
  simpl. rewrite Hf. simpl.
  rewrite cache_get_fresh by exact Hfresh. simpl.
  unfold settled. destruct z; simpl; repeat split.
Qed.

Lemma barrier_frame T s :
  populatedFunctions (snd (barrier T s)) = populatedFunctions s /\
  unhandled (snd (barrier T s)) = unhandled s.
Proof.
  unfold barrier, resolve.
  destruct (Nat.eqb _ _); [destruct (outer s)|]; split; reflexivity.
Qed.

(** The continuation appends the function with what was read. *)
Lemma requirements_step W T name fields deployOptions requirementsContent j s :
  Forall (fun event => nullish event = false) (declared_events fields) ->
  nth_error (tasks s) j =
    Some (RequirementsThen name (VObj fields) deployOptions requirementsContent) ->
  exists f,
    populatedFunctions (step W T j s) = (populatedFunctions s ++ [f])%list /\
    prop "id" f = Ok (VStr name) /\
    prop "deps" f = Ok requirementsContent /\
    unhandled (step W T j s) = unhandled s /\
    (forall e, outer (step W T j s) = Rejected e -> outer s = Rejected e).
Proof.
  intros He Hj.
  destruct (populate_total T name fields deployOptions requirementsContent He)
    as (f & Hf & Hid & Hdeps).
  exists (VObj f). unfold step. rewrite Hj. unfold callback, bind, lift. rewrite Hf.
  set (s0 := set_tasks (remove_nth j (tasks s)) s).
  pose proof (barrier_ok T (snd (push (VObj f) s0))) as Hok.
  pose proof (barrier_rejected T (snd (push (VObj f) s0))) as Hr.
  pose proof (barrier_frame T (snd (push (VObj f) s0))) as [P U].
  unfold push in *. simpl in *.
  destruct (barrier T _) as [[[]|e] s1]; simpl in *; [|discriminate].
  rewrite Hid, Hdeps. repeat split; auto.
Qed.

(** X7: in every state a deployment reaches, when the artifact of a function
    with a handler is a zip archive that has an entry at the dependency
    file's path, the callback that reads it queues its continuation with
    the text of that entry, and the continuation appends the function with
    that text as [deps]. *)
Theorem dependency_file_becomes_deps
  (W : world) (T : plugin) (name : string) (fields : props)
  (pkg depFile text : string) (deployOptions : value) (size : N) (zip : archive)
  (schedule : list nat) (i : nat) :
  let s := deployment W T schedule in
  Forall (fun event => nullish event = false) (declared_events fields) ->
  files W pkg = Some (RegularFile size (Some zip)) ->
  find (fun e => String.eqb depFile (fst e)) zip = Some (depFile, text) ->
  nth_error (tasks s) i =
    Some (DeployOptionsThen name (VObj fields) (VStr pkg) depFile deployOptions) ->
  tasks (step W T i s) =
    (remove_nth i (tasks s) ++
     [RequirementsThen name (VObj fields) deployOptions (VStr text)])%list /\
  unhandled (step W T i s) = unhandled s /\
  forall s2 j,
    nth_error (tasks s2) j =
      Some (RequirementsThen name (VObj fields) deployOptions (VStr text)) ->
    exists f,
      populatedFunctions (step W T j s2) = (populatedFunctions s2 ++ [f])%list /\
      prop "id" f = Ok (VStr name) /\
      prop "deps" f = Ok (VStr text) /\
      unhandled (step W T j s2) = unhandled s2.
Proof.
  intros s He Hf Hz Hi.
  destruct (read_step W T schedule i name (VObj fields) pkg depFile deployOptions
              size (Some zip) Hi Hf) as (Tk & _ & U & _).
  unfold file_async_string in Tk. rewrite Hz in Tk. simpl in Tk.
  split; [exact Tk|]. split; [exact U|].
  intros s2 j Hj.
  destruct (requirements_step W T name fields deployOptions (VStr text) j s2 He Hj)
    as (f & P & Hid & Hdeps & U2 & _).
  exists f. repeat split; assumption.
Qed.

Lemma dependency_file_becomes_deps_witness :
  let W := Demo.cluster in
  let T := Demo.oversized in
  let s := deployment W T [0] in
  find (fun e => String.eqb "package.json" (fst e)) Demo.zip = Some ("package.json", "{}") /\
  exists f,
    populatedFunctions (step W T 0 (step W T 0 s)) = [f] /\
    prop "deps" f = Ok (VStr "{}").
Proof.
  intros W T s. split; [reflexivity|].
  assert (He : Forall (fun event => nullish event = false)
                 (declared_events (own_props Demo.hello))) by (repeat constructor).
  destruct (dependency_file_becomes_deps W T "hello" (own_props Demo.hello)
              "/art/big.zip" "package.json" "{}"
              (VObj [("content", VStr "UEsDBA=="); ("checksum", VStr "sha256:0")])
              1048577%N Demo.zip [0] 0 He eq_refl eq_refl eq_refl)
    as (_ & _ & Hthen).
  destruct (Hthen (step W T 0 s) 0 eq_refl) as (f & P & _ & Hd & _).
  exists f. split; [exact P | exact Hd].
Defined.

(** X8: in every state a deployment reaches, when the artifact of a function
    with a handler is a directory (the size check lets it pass), reading it
    throws [EISDIR] inside the callback: the branch ends there, the function
    is never populated, and from then on [deploy] is never called and the
    promise never fulfilled. *)
Theorem directory_artifact_ends_branch
  (W : world) (T : plugin) (name : string) (d deployOptions : value)
  (pkg depFile : string) (size : N) (schedule later : list nat) (i : nat) :
  let s := deployment W T schedule in
  files W pkg = Some (Directory size) ->
  nth_error (tasks s) i =
    Some (DeployOptionsThen name d (VStr pkg) depFile deployOptions) ->
  tasks (step W T i s) = remove_nth i (tasks s) /\
  unhandled (step W T i s) = (unhandled s ++ [EISDIR pkg])%list /\
  populatedFunctions (step W T i s) = populatedFunctions s /\
  submitted (run W T later (step W T i s)) = [] /\
  outer (run W T later (step W T i s)) <> Fulfilled.
Proof.
  intros s Hf Hi.
  assert (Hstep : step W T i s =
    set_unhandled (unhandled s ++ [EISDIR pkg])
      (set_calls ((calls s ++ [GetFileContent (VStr pkg) depFile]) ++
                  [ReadFileSync (VStr pkg)])
         (set_tasks (remove_nth i (tasks s)) s))).
  { unfold step. rewrite Hi. unfold callback, bind.
    unfold getFileContent, readFileSync, bind, spy, lift, throw. simpl.
    rewrite Hf. reflexivity. }
  split; [now rewrite Hstep|]. split; [now rewrite Hstep|]. split; [now rewrite Hstep|].
  assert (Hd : run W T later (step W T i s) = deployment W T (schedule ++ i :: later))
    by (unfold s, deployment; rewrite run_app; reflexivity).
  rewrite Hd. apply thrown_blocks_deploy.
  rewrite <- Hd. apply run_unhandled.
  rewrite Hstep. simpl. now destruct (unhandled s).
Qed.

Lemma directory_artifact_ends_branch_witness :
  let W := Demo.cluster in
  let s := deployment W unzipped [0] in
  files W "/out" = Some (Directory 4096) /\
  unhandled (step W unzipped 0 s) = [EISDIR "/out"] /\
  submitted (run W unzipped [0; 0] (step W unzipped 0 s)) = [].
Proof.
  intros W s. split; [reflexivity|].
  destruct (directory_artifact_ends_branch W unzipped "hello" Demo.hello
              (VObj [("content", VStr "UEsDBA=="); ("checksum", VStr "sha256:0")])
              "/out" "package.json" 4096%N [0] [0; 0] 0 eq_refl eq_refl)
    as (_ & Hu & _ & Hs & _).
  split; [exact Hu | exact Hs].
Defined.

(** ** Whose failure rejects the deployment *)

Lemma Forall_remove_nth {A} (P : A -> Prop) (l : list A) i :
  Forall P l -> Forall P (remove_nth i l).
Proof.
  intros H. revert i. induction H as [|x l Hx Hl IH]; intros [|i]; simpl; auto.
Qed.

Section Declared.

Variable W : world.
Variable T : plugin.

Lemma each_function_declared description name s :
  In (name, description) (service_functions T) ->
  Forall (declared_task T) (tasks s) ->
  Forall (declared_task T) (tasks (snd (each_function W T description name s))).
Proof.
  intros Hin H. pose proof (each_function_effect W T description name s) as E.
  destruct (each_function W T description name s) as [[[]|e] s']; simpl.
  - destruct E as [(pkg & depFile & [_ _ _ Tk _]) | [f _ _ _ _ Tk]].
    + rewrite Tk. apply Forall_app. split; [exact H|]. repeat constructor. exact Hin.
    + destruct Tk as [[-> _] | (-> & _)]; [exact H|].
      apply Forall_app. split; [exact H | repeat constructor].
  - destruct E as (_ & _ & Tk & _). now rewrite Tk.
Qed.

Lemma each_declared fs s :
  incl fs (service_functions T) ->
  Forall (declared_task T) (tasks s) ->
  Forall (declared_task T) (tasks (snd (each W T fs s))).
Proof.
  revert s. induction fs as [|[name description] fs IH]; intros s Hin H; simpl.
  - exact H.
  - unfold bind.
    pose proof (each_function_declared description name s
                  (Hin _ (or_introl eq_refl)) H) as E.
    destruct (each_function W T description name s) as [[[]|e] s1]; simpl in *.
    + apply IH; [|exact E]. intros x Hx. apply Hin. now right.
    + exact E.
Qed.

Lemma settle_tasks r : tasks (settle r) = tasks (snd r).
Proof. destruct r as [[[]|e] s]; reflexivity. Qed.

Lemma deployFunction_declared :
  Forall (declared_task T) (tasks (deployFunction W T initial)).
Proof.
  unfold deployFunction. destruct (config_init W); [|constructor].
  rewrite settle_tasks. apply each_declared; [apply incl_refl | constructor].
Qed.

Lemma step_declared i s :
  Forall (declared_task T) (tasks s) ->
  Forall (declared_task T) (tasks (step W T i s)).
Proof.
  intros H. destruct (nth_error (tasks s) i) as [t|] eqn:Hi.
  2: { unfold step. now rewrite Hi. }
  pose proof (step_effect W T i s t Hi) as E.
  pose proof (Forall_remove_nth _ _ i H) as Hb.
  destruct t as [name d pkg depFile | name d pkg depFile opts | name d opts req |];
    simpl in E.
  - destruct E as (opts & [_ _ _ Tk _]). rewrite Tk.
    apply Forall_app. split; [exact Hb | repeat constructor].
  - destruct E as [(req & [_ _ _ Tk _]) | (e & [_ _ _ Tk _])]; rewrite Tk;
      [apply Forall_app; split; [exact Hb | repeat constructor] | exact Hb].
  - destruct E as [[f _ _ _ _ Tk] | (e & [_ _ _ Tk _])].
    + destruct Tk as [[-> _] | (-> & _)]; [exact Hb|].
      apply Forall_app. split; [exact Hb | repeat constructor].
    + now rewrite Tk.
  - destruct E as (_ & _ & _ & Tk & _). now rewrite Tk.
Qed.

Lemma deployment_declared schedule :
  Forall (declared_task T) (tasks (deployment W T schedule)).
Proof.
  unfold deployment. pose proof deployFunction_declared as H. revert H.
  generalize (deployFunction W T initial).
  induction schedule as [|i schedule IH]; intros s H; simpl; [exact H|].
  apply IH, step_declared, H.
Qed.

(** A step rejects only in [.catch(reject)]. *)
Lemma step_rejects i s e :
  outer (step W T i s) = Rejected e ->
  outer s = Rejected e \/
  exists name d pkg depFile,
    nth_error (tasks s) i = Some (StrategySettled name d pkg depFile) /\
    strategy_deploy W name d pkg = Throw e.
Proof.
  intros Hs. unfold step in Hs.
  destruct (nth_error (tasks s) i) as [t|] eqn:Hi; [|now left].
  rewrite settle_outer in Hs.
  set (s0 := set_tasks (remove_nth i (tasks s)) s) in Hs.
  assert (H0 : outer s0 = outer s) by reflexivity.
  destruct t as [name d pkg depFile | name d pkg depFile opts | name d opts req |];
    unfold callback, bind in Hs.
  - destruct (strategy_deploy W name d pkg) as [v|e1] eqn:Hd; simpl in Hs;
      [now left|].
    unfold reject in Hs. simpl in Hs.
    destruct (outer s) eqn:Ho; simpl in Hs; try (left; congruence).
    injection Hs as ->. right. exists name, d, pkg, depFile.
    split; [reflexivity | exact Hd].
  - pose proof (quiet_getFileContent W pkg depFile s0) as (_ & Q & _).
    destruct (getFileContent W pkg depFile s0) as [[settled|e1] s1];
      simpl in *; left; congruence.
  - unfold lift in Hs. destruct (populate T name d opts req) as [f|e1];
      simpl in Hs; [|now left].
    pose proof (barrier_ok T (snd (push f s0))) as Hok.
    pose proof (barrier_rejected T (snd (push f s0)) e) as Hb.
    unfold push in *. simpl in *.
    destruct (barrier T _) as [[[]|e1] s3]; simpl in *; [|discriminate].
    left. exact (Hb Hs).
  - simpl in Hs. now left.
Qed.

End Declared.

(** X9: the promise is rejected only through [.catch(reject)]: with the
    error the strategy deploy of a declared function failed with. No error
    of artifact resolution, of the size check, of the archive or of event
    normalization ever rejects it. *)
Theorem rejection_is_strategy_failure
  (W : world) (T : plugin) (schedule : list nat) (e : error) :
  outer (deployment W T schedule) = Rejected e ->
  exists name description pkg,
    In (name, description) (service_functions T) /\
    strategy_deploy W name description pkg = Throw e.
Proof.
  induction schedule as [|i schedule IH] using rev_ind.
  - intros H. exfalso. unfold deployment, deployFunction in H. simpl in H.
    destruct (config_init W); [|discriminate].
    rewrite settle_outer in H. apply each_rejected in H. discriminate H.
  - unfold deployment. rewrite run_app. simpl. fold (deployment W T schedule).
    intros H. destruct (step_rejects W T i _ e H) as [H0 | (name & d & pkg & depFile & Hi & Hd)].
    + exact (IH H0).
    + exists name, d, pkg. split; [|exact Hd].
      pose proof (deployment_declared W T schedule) as F.
      rewrite Forall_forall in F.
      exact (F _ (nth_error_In _ _ Hi)).
Qed.

Lemma rejection_is_strategy_failure_witness :
  outer (deployment Demo.cluster Demo.with_broken [1]) = Rejected Demo.upload_failed /\
  exists name description pkg,
    In (name, description) (service_functions Demo.with_broken) /\
    strategy_deploy Demo.cluster name description pkg = Throw Demo.upload_failed.
Proof.
  assert (H : outer (deployment Demo.cluster Demo.with_broken [1]) =
              Rejected Demo.upload_failed) by reflexivity.
  split; [exact H|].
  exact (rejection_is_strategy_failure Demo.cluster Demo.with_broken [1] _ H).
Defined.

(** ** What callbacks leave alone *)

Lemma step_log W T i s : log (step W T i s) = log s.
Proof.
  unfold step. destruct (nth_error (tasks s) i) as [t|]; [|reflexivity].
  set (s0 := set_tasks (remove_nth i (tasks s)) s).
  change (log s) with (log s0). generalize s0. clear s0. intros s0.
  destruct t as [name d pkg depFile | name d pkg depFile opts | name d opts req |];
    unfold callback, bind.
  - destruct (strategy_deploy W name d pkg) as [v|e]; simpl; [reflexivity|].
    unfold reject. destruct (outer s0); reflexivity.
  - unfold getFileContent, readFileSync, loadZip, JSZip_loadAsync,
      bind, spy, lift, ret, throw. simpl.
    destruct (path_of pkg) as [p|e]; simpl; [|reflexivity].
    destruct (files W p) as [[size|size z]|]; simpl; try reflexivity.
    destruct (cache_get _ _); reflexivity.
  - unfold lift. destruct (populate T name d opts req) as [f|e]; simpl; [|reflexivity].
    unfold barrier, resolve, push. simpl.
    destruct (Nat.eqb _ _); [destruct (outer s0)|]; reflexivity.
  - reflexivity.
Qed.

Lemma step_appends W T i s :
  (exists more, populatedFunctions (step W T i s) = (populatedFunctions s ++ more)%list) /\
  (exists batches, submitted (step W T i s) = (submitted s ++ batches)%list).
Proof.
  destruct (nth_error (tasks s) i) as [t|] eqn:Hi.
  2: { unfold step. rewrite Hi. split; exists []; now rewrite app_nil_r. }
  pose proof (step_effect W T i s t Hi) as E.
  destruct t as [name d pkg depFile | name d pkg depFile opts | name d opts req |];
    simpl in E.
  - destruct E as (opts & [P _ Sb _ _]). rewrite P, Sb.
    split; exists []; now rewrite app_nil_r.
  - destruct E as [(req & [P _ Sb _ _]) | (e & [P _ Sb _ _])]; rewrite P, Sb;
      split; exists []; now rewrite app_nil_r.
  - destruct E as [[f _ P _ Sb _] | (e & [P _ Sb _ _])]; rewrite P, Sb.
    + split; [now exists [f] | exists []; now rewrite app_nil_r].
    + split; exists []; now rewrite app_nil_r.
  - destruct E as (P & _ & _ & _ & Sb). rewrite P, Sb.
    split; [exists []; now rewrite app_nil_r | eexists; reflexivity].
Qed.

Lemma run_appends W T later s :
  (exists more, populatedFunctions (run W T later s) = (populatedFunctions s ++ more)%list) /\
  (exists batches, submitted (run W T later s) = (submitted s ++ batches)%list) /\
  log (run W T later s) = log s.
Proof.
  revert s. induction later as [|i later IH]; intros s; simpl.
  - repeat split; try (exists []; now rewrite app_nil_r).
  - destruct (IH (step W T i s)) as ((m1 & P1) & (b1 & S1) & L1).
    destruct (step_appends W T i s) as ((m0 & P0) & (b0 & S0)).
    split; [|split].
    + exists (m0 ++ m1)%list. now rewrite P1, P0, app_assoc.
    + exists (b0 ++ b1)%list. now rewrite S1, S0, app_assoc.
    + now rewrite L1, step_log.
Qed.

(** X12: callbacks only ever append: whatever runs after a state, the
    functions populated and the batches submitted by then stay as a prefix
    of what is there afterwards; and callbacks never log, so all a
    deployment logs is printed by the loop over the functions, before the
    first callback runs. *)
Theorem callbacks_only_append (W : world) (T : plugin) (schedule later : list nat) :
  let s := deployment W T schedule in
  let s' := deployment W T (schedule ++ later) in
  (exists more, populatedFunctions s' = (populatedFunctions s ++ more)%list) /\
  (exists batches, submitted s' = (submitted s ++ batches)%list) /\
  log s' = log (deployFunction W T initial).
Proof.
  intros s s'.
  assert (Hs' : s' = run W T later s) by (unfold s', s, deployment; apply run_app).
  destruct (run_appends W T later s) as (P & Sb & _).
  rewrite Hs'. split; [exact P|]. split; [exact Sb|].
  rewrite <- Hs'. unfold s', deployment.
  now destruct (run_appends W T (schedule ++ later) (deployFunction W T initial))
    as (_ & _ & ->).
Qed.

(** ** Functions without a handler come first *)

Lemma each_function_populated W T description name s :
  fst (each_function W T description name s) = Ok tt ->
  populatedFunctions (snd (each_function W T description name s)) =
  (populatedFunctions s ++
   (if handlerless (name, description) then [plain_record (name, description)] else []))%list.
Proof.
  unfold each_function, bind, handlerless, plain_record. simpl fst. simpl snd.
  pose proof (quiet_getPkg W T description name s) as (P1 & _).
  destruct (getPkg W T description name s) as [[pkg|e] s1]; simpl in *;
    [|discriminate].
  pose proof (quiet_checkSize W pkg s1) as (P2 & _).
  destruct (checkSize W pkg s1) as [[[]|e] s2]; simpl in *; [|discriminate].
  unfold lift. destruct (prop "handler" description) as [handler|e]; simpl;
    [|discriminate].
  destruct (truthy handler); simpl.
  - destruct (rbind _ _) as [rt|e]; simpl; [|discriminate].
    intros _. rewrite app_nil_r. congruence.
  - intros _.
    pose proof (barrier_frame T (snd (push
      (VObj (Lodash.assign [] [description; VObj [("id", VStr name)]])) s2))) as [P _].
    unfold push in *. simpl in *.
    destruct (barrier T _) as [[[]|e] s3]; simpl in *; rewrite P; congruence.
Qed.

Lemma each_populated W T fs s :
  fst (each W T fs s) = Ok tt ->
  populatedFunctions (snd (each W T fs s)) =
  (populatedFunctions s ++ List.map plain_record (filter handlerless fs))%list.
Proof.
  revert s. induction fs as [|[name description] fs IH]; intros s; simpl.
  - intros _. now rewrite app_nil_r.
  - unfold bind. pose proof (each_function_populated W T description name s) as E.
    destruct (each_function W T description name s) as [[[]|e] s1]; simpl in *;
      [|discriminate].
    intros H. rewrite (IH s1 H), (E eq_refl).
    destruct (handlerless (name, description)); simpl;
      rewrite <- ?app_assoc; reflexivity.
Qed.

(** X13: when the loop over the functions completes, the functions without
    a (truthy) handler are populated by it, in the order of their
    declaration, before any callback runs; under every schedule they are the
    first records of the collection, the functions with a handler following
    in the order their branches complete. *)
Theorem handlerless_functions_first (W : world) (T : plugin) (schedule : list nat) :
  config_init W = Ok tt ->
  fst (each W T (service_functions T) initial) = Ok tt ->
  populatedFunctions (deployFunction W T initial) =
    List.map plain_record (filter handlerless (service_functions T)) /\
  exists more,
    populatedFunctions (deployment W T schedule) =
    (List.map plain_record (filter handlerless (service_functions T)) ++ more)%list.
Proof.
  intros Hc He.
  assert (H0 : populatedFunctions (deployFunction W T initial) =
               List.map plain_record (filter handlerless (service_functions T))).
  { unfold deployFunction. rewrite Hc.
    pose proof (each_populated W T (service_functions T) initial He) as P.
    destruct (each W T (service_functions T) initial) as [[[]|e] s']; simpl in *;
      [exact P | discriminate]. }
  split; [exact H0|].
  destruct (run_appends W T schedule (deployFunction W T initial)) as ((more & P) & _).
  exists more. unfold deployment. now rewrite P, H0.
Qed.

Lemma handlerless_functions_first_witness :
  populatedFunctions (deployFunction Demo.cluster Demo.mixed initial) =
    [VObj [("description", VStr "metadata only"); ("id", VStr "meta")]] /\
  exists more,
    populatedFunctions (deployment Demo.cluster Demo.mixed [1; 0; 1; 0; 0; 0]) =
    (VObj [("description", VStr "metadata only"); ("id", VStr "meta")] :: more).
Proof.
  exact (handlerless_functions_first Demo.cluster Demo.mixed [1; 0; 1; 0; 0; 0]
           eq_refl eq_refl).
Defined.

(** ** One artifact for all the functions *)

Section Shared.

Variable W : world.
Variable T : plugin.
Variable path : string.
Variable stat : node.

Hypothesis Hmode :
  truthy (field "package" (options T)) &&
    truthy (field "individually" (service_package T)) = false.
Hypothesis Hpath :
  first_truthy [field "package" (options T); field "path" (service_package T);
                field "artifact" (service_package T)] = VStr path.
Hypothesis Hne : path <> "".
Hypothesis Hfile : files W path = Some stat.

Lemma getPkg_shared description name s :
  getPkg W T description name s =
  (Ok (VStr path), set_calls (calls s ++ [GetPkg name]) s).
Proof.
  rewrite (getPkg_shared_mode W T description name s Hmode).
  rewrite service_artifact_wins, Hpath; [reflexivity|].
  rewrite Hpath. simpl. destruct (String.eqb_spec path ""); [contradiction | reflexivity].
Qed.

Lemma each_function_shared description name s :
  nullish description = false ->
  exists s',
    each_function W T description name s = (Ok tt, s') /\
    log s' = (log s ++ warnings (node_size stat))%list /\
    calls s' = (calls s ++ loop_calls (VStr path) (name, description))%list.
Proof.
  intros Hd. unfold each_function, bind. rewrite getPkg_shared.
  unfold checkSize, bind, spy, lift, statSync. simpl. rewrite Hfile. simpl.
  unfold loop_calls, handlerless, warnings. simpl fst. simpl snd.
  assert (Hp : forall k, exists v, prop k description = Ok v)
    by (intros k; destruct description; try discriminate; eexists; reflexivity).
  destruct (Hp "handler") as (handler & ->).
  destruct (Hp "runtime") as (rt & Hrt).
  destruct (oneMB <? node_size stat)%N; simpl;
    (destruct (truthy handler); simpl;
     [ rewrite Hrt; unfold or_else; simpl; destruct (truthy rt); simpl;
       eexists; (split; [reflexivity|]); simpl;
       rewrite <- ?app_assoc, ?app_nil_r; split; reflexivity
     | unfold barrier, resolve; simpl;
       destruct (Nat.eqb _ _); [destruct (outer s)|]; simpl;
       eexists; (split; [reflexivity|]); simpl;
       rewrite <- ?app_assoc, ?app_nil_r; split; reflexivity ]).
Qed.

Lemma each_shared fs s :
  Forall (fun nd => nullish (snd nd) = false) fs ->
  exists s',
    each W T fs s = (Ok tt, s') /\
    log s' = (log s ++ flat_map (fun _ => warnings (node_size stat)) fs)%list /\
    calls s' = (calls s ++ flat_map (loop_calls (VStr path)) fs)%list.
Proof.
  intros H. revert s. induction H as [|[name description] fs Hd _ IH]; intros s; simpl.
  - exists s. now rewrite !app_nil_r.
  - unfold bind.
    destruct (each_function_shared description name s Hd) as (s1 & -> & L1 & C1).
    destruct (IH s1) as (s' & Hrun & L & C).
    exists s'. split; [exact Hrun|].
    rewrite L, C, L1, C1, <- !app_assoc. split; reflexivity.
Qed.

Lemma step_calls i s :
  exists extra,
    calls (step W T i s) = (calls s ++ extra)%list /\
    forallb archive_call extra = true.
Proof.
  unfold step. destruct (nth_error (tasks s) i) as [t|];
    [|exists []; now rewrite app_nil_r].
  set (s0 := set_tasks (remove_nth i (tasks s)) s).
  change (calls s) with (calls s0). generalize s0. clear s0. intros s0.
  destruct t as [name d pkg depFile | name d pkg depFile opts | name d opts req |];
    unfold callback, bind.
  - exists []. rewrite app_nil_r. split; [|reflexivity].
    destruct (strategy_deploy W name d pkg) as [v|e]; simpl; [reflexivity|].
    unfold reject. destruct (outer s0); reflexivity.
  - unfold getFileContent, readFileSync, loadZip, JSZip_loadAsync,
      bind, spy, lift, ret, throw. simpl.
    destruct (path_of pkg) as [p|e]; simpl;
      [|eexists; rewrite <- app_assoc; split; reflexivity].
    destruct (files W p) as [[size|size z]|]; simpl;
      try (eexists; rewrite <- app_assoc; split; reflexivity).
    destruct (cache_get _ _); simpl;
      eexists; rewrite <- ?app_assoc; split; reflexivity.
  - exists []. rewrite app_nil_r. split; [|reflexivity].
    unfold lift. destruct (populate T name d opts req) as [f|e]; simpl; [|reflexivity].
    unfold barrier, resolve, push. simpl.
    destruct (Nat.eqb _ _); [destruct (outer s0)|]; reflexivity.
  - exists []. rewrite app_nil_r. split; reflexivity.
Qed.

Lemma run_calls schedule s :
  filter (fun c => negb (archive_call c)) (calls (run W T schedule s)) =
  filter (fun c => negb (archive_call c)) (calls s).
Proof.
  revert s. induction schedule as [|i schedule IH]; intros s; simpl; [reflexivity|].
  rewrite IH. destruct (step_calls i s) as (extra & -> & Hx).
  rewrite filter_app.
  assert (Hnil : filter (fun c => negb (archive_call c)) extra = []).
  { clear -Hx. induction extra as [|c extra IH]; simpl in *; [reflexivity|].
    apply andb_prop in Hx as [Hc Hx]. rewrite Hc. simpl. auto. }
  rewrite Hnil. apply app_nil_r.
Qed.

Lemma loop_calls_plain fs :
  filter (fun c => negb (archive_call c)) (flat_map (loop_calls (VStr path)) fs) =
  flat_map (loop_calls (VStr path)) fs.
Proof.
  induction fs as [|nd fs IH]; simpl; [reflexivity|].
  unfold loop_calls at 2. destruct (handlerless nd); simpl; now rewrite IH.
Qed.

End Shared.

Lemma flat_map_warnings {A} (size : N) (fs : list A) :
  flat_map (fun _ => warnings size) fs =
  if (1048576 <? size)%N then repeat (size_warning size) (List.length fs) else [].
Proof.
  unfold warnings. change oneMB with 1048576%N.
  destruct (1048576 <? size)%N; induction fs as [|x fs IH]; simpl; congruence.
Qed.

(** X14: when all functions resolve to one existing artifact (no individual
    packaging) and no declaration is [null], the loop over the functions
    completes, and the size warning is printed once per declared function,
    not once per artifact: a service of N functions on an oversized artifact
    logs N identical warnings, and nothing else, under every schedule. *)
Theorem size_warning_per_function
  (W : world) (T : plugin) (path : string) (stat : node) (schedule : list nat) :
  config_init W = Ok tt ->
  truthy (field "package" (options T)) &&
    truthy (field "individually" (service_package T)) = false ->
  first_truthy [field "package" (options T); field "path" (service_package T);
                field "artifact" (service_package T)] = VStr path ->
  path <> "" ->
  files W path = Some stat ->
  Forall (fun nd => nullish (snd nd) = false) (service_functions T) ->
  fst (each W T (service_functions T) initial) = Ok tt /\
  log (deployment W T schedule) =
    if (1048576 <? node_size stat)%N
    then repeat (size_warning (node_size stat)) (total T)
    else [].
Proof.
  intros Hc Hm Hp Hne Hf Hd.
  destruct (each_shared W T path stat Hm Hp Hne Hf (service_functions T) initial Hd)
    as (s' & Hrun & L & _).
  split; [now rewrite Hrun|].
  unfold deployment.
  destruct (run_appends W T schedule (deployFunction W T initial)) as (_ & _ & ->).
  unfold deployFunction. rewrite Hc, Hrun. simpl. rewrite L. simpl.
  apply flat_map_warnings.
Qed.

Lemma size_warning_per_function_witness :
  log (deployment Demo.cluster twice_oversized [0; 0; 0; 0]) =
    [size_warning 1048577; size_warning 1048577].
Proof.
  assert (Hne : "/art/big.zip" <> "") by discriminate.
  assert (Hd : Forall (fun nd => nullish (snd nd) = false)
                 (service_functions twice_oversized)) by (repeat constructor).
  exact (proj2 (size_warning_per_function Demo.cluster twice_oversized "/art/big.zip"
                  (RegularFile 1048577 (Some Demo.zip)) [0; 0; 0; 0]
                  eq_refl eq_refl eq_refl Hne eq_refl Hd)).
Defined.

(** X15: under the same conditions a spy sees, apart from the reads of the
    archive, exactly this under every schedule: for each declared function,
    in declaration order, one [getPkg], one [checkSize] of the shared
    artifact and, when the function has a handler, one strategy deploy.
    Callbacks resolve nothing, check no size and never call the strategy
    again. *)
Theorem collaborator_calls
  (W : world) (T : plugin) (path : string) (stat : node) (schedule : list nat) :
  config_init W = Ok tt ->
  truthy (field "package" (options T)) &&
    truthy (field "individually" (service_package T)) = false ->
  first_truthy [field "package" (options T); field "path" (service_package T);
                field "artifact" (service_package T)] = VStr path ->
  path <> "" ->
  files W path = Some stat ->
  Forall (fun nd => nullish (snd nd) = false) (service_functions T) ->
  filter (fun c => negb (archive_call c)) (calls (deployment W T schedule)) =
  flat_map (loop_calls (VStr path)) (service_functions T).
Proof.
  intros Hc Hm Hp Hne Hf Hd.
  destruct (each_shared W T path stat Hm Hp Hne Hf (service_functions T) initial Hd)
    as (s' & Hrun & _ & C).
  unfold deployment. rewrite run_calls.
  unfold deployFunction. rewrite Hc, Hrun. simpl. rewrite C. simpl.
  apply loop_calls_plain.
Qed.

Lemma collaborator_calls_witness :
  filter (fun c => negb (archive_call c))
    (calls (deployment Demo.cluster Demo.mixed [1; 0; 1; 0; 0; 0; 0])) =
  [GetPkg "hello"; CheckSize (VStr "/art/svc.zip");
   StrategyDeploy "hello" (VStr "/art/svc.zip");
   GetPkg "meta"; CheckSize (VStr "/art/svc.zip");
   GetPkg "report"; CheckSize (VStr "/art/svc.zip");
   StrategyDeploy "report" (VStr "/art/svc.zip")].
Proof.
  assert (Hne : "/art/svc.zip" <> "") by discriminate.
  assert (Hd : Forall (fun nd => nullish (snd nd) = false)
                 (service_functions Demo.mixed)) by (repeat constructor).
  exact (collaborator_calls Demo.cluster Demo.mixed "/art/svc.zip"
           (RegularFile 2048 (Some Demo.zip)) [1; 0; 1; 0; 0; 0; 0]
           eq_refl eq_refl eq_refl Hne eq_refl Hd).
Defined.
